(** * pi_by_digits: Machin's formula in fixed-point big-integer arithmetic

    A shallow embedding of [src/pi_by_digits.go] and the proofs of the
    properties its specification states about the two core functions,
    [arccot] and [π].

    Modelling choices.
    - A [*big.Int] is an unbounded integer, hence a [Z].  In the source no
      two variables ever point to the same [big.Int]: every variable is
      initialised with a fresh [big.NewInt], [arccot] never writes to its
      arguments [x] and [unity], and the value it returns is its own fresh
      [sum].  A receiver may be one of its own operands, as in
      [xpower.Div(xpower, square)], which [math/big] allows: the operands
      are read before the result is stored.  So an update [z.Op(a, b)] is
      the rebinding of [z] to the value of the operation.
    - [places] is a Go [int]; the properties are proved for every integer,
      whatever the width of [int].
    - The program is also written on a store of [big.Int] objects,
      pointer by pointer ([arccot_p], [π_p]), and shown to compute there
      what it computes on values, whatever the store it starts in.
    - [math/big] is Go's standard library; its operations are modelled from
      their documentation and implementation: [Div] is Euclidean and panics
      on a zero divisor, [Exp] with a [nil] modulus returns 1 when the
      exponent is not positive.
    - The loop [for { ... break ... }] of [arccot] has no bound in the
      source.  It is run with a fuel (the number of times the body may be
      entered); running out of fuel is a third outcome next to returning and
      panicking, and "the function returns [v]" always means: every
      sufficiently large fuel gives [Ret v]. *)

From Stdlib Require Import ZArith Lia List String Ascii.
Import ListNotations.

Local Open Scope Z_scope.

(** ** Outcomes of a Go computation *)

Inductive outcome (A : Type) : Type :=
| Ret (a : A)     (* normal return *)
| Panic           (* run-time panic (division by zero) *)
| OutOfFuel.      (* the loop was still running when the fuel ran out *)

Arguments Ret {A} a.
Arguments Panic {A}.
Arguments OutOfFuel {A}.

Definition bind {A B : Type} (m : outcome A) (k : A -> outcome B) : outcome B :=
  match m with
  | Ret a => k a
  | Panic => Panic
  | OutOfFuel => OutOfFuel
  end.

Notation "x <- m ;; k" := (bind m (fun x => k))
  (at level 61, m at next level, right associativity).

(** [returns run v]: the computation [run], given enough fuel, returns [v]. *)
Definition returns {A : Type} (run : nat -> outcome A) (v : A) : Prop :=
  exists k : nat, forall fuel : nat, (k <= fuel)%nat -> run fuel = Ret v.

(** ** The part of [math/big] the program uses *)

Module big.

Definition NewInt (v : Z) : Z := v.

Definition Add (x y : Z) : Z := x + y.
Definition Sub (x y : Z) : Z := x - y.
Definition Mul (x y : Z) : Z := x * y.
Definition Neg (x : Z) : Z := - x.

(** [x.Cmp(y)] is -1, 0 or +1. *)
Definition Cmp (x y : Z) : Z :=
  match x ?= y with
  | Lt => -1
  | Eq => 0
  | Gt => 1
  end.

(** [QuoRem]: T-division, quotient truncated toward zero, the remainder
    has the sign of the dividend. *)
Definition QuoRem (x y : Z) : Z * Z := (Z.quot x y, Z.rem x y).

(** [Quo]: the truncating quotient on its own. *)
Definition Quo (x y : Z) : outcome Z :=
  if y =? 0 then Panic else Ret (Z.quot x y).

(** [Div]: Euclidean division, as [math/big] implements it: the truncated
    quotient, corrected by one when the remainder is negative.  A zero
    divisor panics. *)
Definition Div (x y : Z) : outcome Z :=
  if y =? 0 then Panic
  else
    let (q, r) := QuoRem x y in
    Ret (if r <? 0 then (if y <? 0 then q + 1 else q - 1) else q).

(** [z.Exp(x, y, nil)]: [x**y], and 1 when [y <= 0]. *)
Definition Exp (x y : Z) : Z := if y <=? 0 then 1 else x ^ y.

End big.

(** ** [arccot] and [π], over the division primitive

    The code is written once, over the operation that performs the
    divisions; the program is its instance at [big.Div]. *)

(** The variables the loop of [arccot] updates. *)
Record loop_state : Type := mkState {
  sum : Z;
  xpower : Z;
  n : Z;
  sign : Z
}.

(** What one execution of the loop body does: [break], or go round again. *)
Inductive step_result : Type :=
| Break (s : loop_state)
| Continue (s : loop_state).

Section Program.

Variable Div : Z -> Z -> outcome Z.

(** The body of the [for] loop, lines 111-133. *)
Definition loop_body (square : Z) (s : loop_state) : outcome step_result :=
  (* xpower.Div(xpower, square) *)
  xpower' <- Div (xpower s) square ;;
  (* term := big.NewInt(0); term.Div(xpower, n) *)
  term <- Div xpower' (n s) ;;
  let zero := big.NewInt 0 in
  if big.Cmp term zero =? 0 then
    Ret (Break (mkState (sum s) xpower' (n s) (sign s)))
  else
    (* sum.Add(sum, addend.Mul(sign, term)) *)
    let sum' := big.Add (sum s) (big.Mul (sign s) term) in
    (* sign.Neg(sign); n.Add(n, big.NewInt(2)) *)
    Ret (Continue (mkState sum' xpower' (big.Add (n s) (big.NewInt 2))
                           (big.Neg (sign s)))).

(** The [for] loop; [fuel] bounds the number of times the body is entered. *)
Fixpoint loop (fuel : nat) (square : Z) (s : loop_state) : outcome loop_state :=
  match fuel with
  | O => OutOfFuel
  | S fuel' =>
      r <- loop_body square s ;;
      match r with
      | Break s' => Ret s'
      | Continue s' => loop fuel' square s'
      end
  end.

(** The state on entry to the loop, lines 94-107. *)
Definition arccot_init (x unity : Z) : outcome loop_state :=
  sum0 <- Div unity x ;;
  xpower0 <- Div unity x ;;
  Ret (mkState sum0 xpower0 (big.NewInt 3) (big.NewInt (-1))).

Definition arccot_with (fuel : nat) (x unity : Z) : outcome Z :=
  s0 <- arccot_init x unity ;;
  let square := big.Mul x x in
  s <- loop fuel square s0 ;;
  Ret (sum s).

(** The result of the [k]-th execution of the loop body ([k = 0]: the
    state on entry), when the loop gets that far; [None] when it has
    been left before. *)
Fixpoint state_after (k : nat) (square : Z) (s0 : loop_state)
  : outcome (option step_result) :=
  match k with
  | O => Ret (Some (Continue s0))
  | S k' =>
      r <- state_after k' square s0 ;;
      match r with
      | Some (Continue s) => r' <- loop_body square s ;; Ret (Some r')
      | _ => Ret None
      end
  end.

Definition arccot_state_after (k : nat) (x unity : Z)
  : outcome (option step_result) :=
  s0 <- arccot_init x unity ;;
  state_after k (big.Mul x x) s0.

Definition π_with (fuel : nat) (places : Z) : outcome Z :=
  let digits := big.NewInt places in
  let ten := big.NewInt 10 in
  (* unity.Exp(ten, exponent.Add(digits, ten), nil) *)
  let exponent := big.Add digits ten in
  let unity := big.Exp ten exponent in
  let pi := big.NewInt 4 in
  left <- arccot_with fuel (big.NewInt 5) unity ;;
  let left := big.Mul left (big.NewInt 4) in
  right <- arccot_with fuel (big.NewInt 239) unity ;;
  let left := big.Sub left right in
  let pi := big.Mul pi left in
  Div pi (big.Exp ten ten).

End Program.

(** The program: every division is [big.Int.Div]. *)
Definition arccot : nat -> Z -> Z -> outcome Z := arccot_with big.Div.
Definition π : nat -> Z -> outcome Z := π_with big.Div.

(** The loop variables carried by a step result. *)
Definition state_of (r : step_result) : loop_state :=
  match r with
  | Break s => s
  | Continue s => s
  end.

(** ** The evaluator as the specification words it

    Section 4.1 of the specification, step by step, every division being
    the truncating quotient [Z.quot]: both [sum] and [xpower] start at
    [unity / x], the counter at 3 and the sign at -1; a round sets
    [xpower] to [xpower / x^2], takes [term = xpower / n], stops with
    [sum] when [term] is 0, and otherwise adds [sign * term], flips the
    sign and adds 2 to the counter. *)

Definition spec_init (x unity : Z) : loop_state :=
  mkState (Z.quot unity x) (Z.quot unity x) 3 (-1).

Definition spec_round (x : Z) (s : loop_state) : step_result :=
  let xpower' := Z.quot (xpower s) (x ^ 2) in
  let term := Z.quot xpower' (n s) in
  if term =? 0 then Break (mkState (sum s) xpower' (n s) (sign s))
  else Continue (mkState (sum s + sign s * term) xpower' (n s + 2) (- sign s)).

Fixpoint spec_loop (fuel : nat) (x : Z) (s : loop_state) : outcome Z :=
  match fuel with
  | O => OutOfFuel
  | S fuel' =>
      match spec_round x s with
      | Break s' => Ret (sum s')
      | Continue s' => spec_loop fuel' x s'
      end
  end.

Definition spec_arccot (fuel : nat) (x unity : Z) : outcome Z :=
  spec_loop fuel x (spec_init x unity).

(** ** The wrapper: [main] prints the result

    [fmt.Sprint] of a [*big.Int] is its decimal numeral, with a leading
    minus sign when negative; the digits are obtained by repeated division
    by ten.  [main] drops the first byte of that string and prints the
    rest after ["3."].  The number of places comes from the command line
    and is a parameter here. *)

Definition digit_char (d : Z) : ascii := ascii_of_nat (48 + Z.to_nat d).

(** The decimal digits of a non-negative [v], least significant first. *)
Fixpoint decimal_rev (fuel : nat) (v : Z) : list Z :=
  match fuel with
  | O => []
  | S fuel' =>
      if v <? 10 then [v] else (v mod 10) :: decimal_rev fuel' (v / 10)
  end.

(** A numeral has no more decimal digits than binary ones. *)
Definition decimal (v : Z) : list Z :=
  rev (decimal_rev (S (Z.to_nat (Z.log2 v))) v).

Definition string_of_digits (l : list Z) : string :=
  fold_right (fun d s => String (digit_char d) s) EmptyString l.

Definition Sprint (v : Z) : string :=
  if v <? 0 then String "-" (string_of_digits (decimal (- v)))
  else string_of_digits (decimal v).

Definition newline : string := String (ascii_of_nat 10) EmptyString.

(** [main], lines 15-19; what it returns here is what it prints.
    [scaledPi[1:]] panics on an empty string. *)
Definition main (fuel : nat) (places : Z) : outcome string :=
  v <- π fuel places ;;
  let scaledPi := Sprint v in
  match scaledPi with
  | EmptyString => Panic
  | String _ rest => Ret ("3." ++ rest ++ newline)%string
  end.

(** ** The command line

    [strconv.Atoi] is [ParseInt(s, 10, 0)]: an optional sign, then one or
    more decimal digits, the value within the range of an [int] of
    [intSize] bits.  It fails with a syntax error or with a range error;
    [handleCommandLine] only looks at [err != nil], so both are [None]
    here.  The width [intSize] of [int] (32 or 64) and [filepath.Base],
    which depend on the platform, are parameters. *)

Definition is_digit (c : ascii) : bool :=
  ((48 <=? nat_of_ascii c) && (nat_of_ascii c <=? 57))%nat%bool.

Definition digit_value (c : ascii) : Z := Z.of_nat (nat_of_ascii c) - 48.

(** The digit loop of [ParseUint] in base 10. *)
Fixpoint parse_digits (acc : Z) (s : string) : option Z :=
  match s with
  | EmptyString => Some acc
  | String c s' =>
      if is_digit c then parse_digits (acc * 10 + digit_value c) s'
      else None
  end.

Definition ParseUint (s : string) : option Z :=
  match s with
  | EmptyString => None
  | String _ _ => parse_digits 0 s
  end.

Definition ParseInt (s : string) (bitSize : Z) : option Z :=
  match s with
  | EmptyString => None
  | String c s' =>
      let neg := (c =? "-")%char in
      let body := if ((c =? "+") || (c =? "-"))%char%bool then s' else s in
      match ParseUint body with
      | None => None
      | Some un =>
          let cutoff := 2 ^ (bitSize - 1) in
          if (negb neg && (cutoff <=? un))%bool then None
          else if (neg && (cutoff <? un))%bool then None
          else Some (if neg then - un else un)
      end
  end.

(** What [handleCommandLine] does: it returns the number of digits,
    or ends the process with an exit status; either way it may have
    written to the standard error. *)
Inductive cmdline_result : Type :=
| Returned (x : Z) (err_output : string)
| Exited (code : Z) (err_output : string).

(** What a run of the process leaves. *)
Record process_result : Type := mkProcess {
  stdout : string;
  stderr : string;
  status : Z
}.

Section CommandLine.

Variable intSize : Z.
Variable Base : string -> string.

Definition Atoi (s : string) : option Z := ParseInt s intSize.

(** The text of the call for help, with the newline of [Fprintln]. *)
Definition usage_text (app : string) : string :=
  ("usage: " ++ app ++ " [digits]" ++ newline ++ " e.g.: " ++ app
   ++ " 10000" ++ newline)%string.

Definition ignoring_text (defaultValue : Z) : string :=
  ("ignoring invalid number of digits: will display "
   ++ Sprint defaultValue ++ newline)%string.

(** [handleCommandLine], lines 21-40, on the arguments [os.Args]. *)
Definition handleCommandLine (Args : list string) (defaultValue : Z)
  : cmdline_result :=
  match Args with
  | arg0 :: arg1 :: _ =>
      if ((arg1 =? "-h") || (arg1 =? "--help"))%string%bool then
        let app := Base arg0 in
        Exited 1 (usage_text app)
      else
        match Atoi arg1 with
        | None => Returned defaultValue (ignoring_text defaultValue)
        | Some x => Returned x EmptyString
        end
  | _ => Returned defaultValue EmptyString
  end.

(** The whole of [main], lines 15-19, from the arguments: [os.Exit]
    ends the process before anything is computed or printed. *)
Definition main_from_args (fuel : nat) (Args : list string)
  : outcome process_result :=
  match handleCommandLine Args 1000 with
  | Exited code err => Ret (mkProcess EmptyString err code)
  | Returned places err =>
      out <- main fuel places ;;
      Ret (mkProcess out err 0)
  end.

End CommandLine.

(** ** The series [arccot] sums

    The [j]-th term of the series at scale [unity], and the alternating
    sum of its first [k] terms. *)

Definition series_term (x unity : Z) (j : nat) : Z :=
  unity / x ^ (2 * Z.of_nat j + 1) / (2 * Z.of_nat j + 1).

Fixpoint series_sum (x unity : Z) (k : nat) : Z :=
  match k with
  | O => 0
  | S k' => series_sum x unity k' + (-1) ^ Z.of_nat k' * series_term x unity k'
  end.

(** The values a decimal digit takes. *)
Definition is_decimal_digit (d : Z) : Prop := 0 <= d <= 9.

(** Every character of a string passes a test. *)
Fixpoint string_forall (p : ascii -> bool) (s : string) : bool :=
  match s with
  | EmptyString => true
  | String c s' => (p c && string_forall p s')%bool
  end.

(** ** The program on a store of [big.Int] objects

    The source works on pointers: a [*big.Int] is the address of an
    object, [big.NewInt] makes a new object, and a method [z.Op(x, y)]
    reads the objects [x] and [y], stores the result in the object [z]
    and returns [z].  Here the objects live in a store, the code is
    written pointer by pointer as in the source, and a call of [π] starts
    in whatever store the calls before it have left.  The source has no
    package-level variable: the store is all the state there is. *)

Definition ptr : Type := nat.

(** A store: the value of each object, and the next free address. *)
Record store : Type := mkStore {
  cells : ptr -> Z;
  next : ptr
}.

(** A computation on the store. *)
Definition M (A : Type) : Type := store -> outcome (A * store).

Definition ret {A : Type} (a : A) : M A := fun h => Ret (a, h).

Definition bindM {A B : Type} (m : M A) (k : A -> M B) : M B :=
  fun h =>
    match m h with
    | Ret (a, h') => k a h'
    | Panic => Panic
    | OutOfFuel => OutOfFuel
    end.

Notation "x <~ m ;; k" := (bindM m (fun x => k))
  (at level 61, m at next level, right associativity).

Definition lift {A : Type} (o : outcome A) : M A :=
  fun h =>
    match o with
    | Ret a => Ret (a, h)
    | Panic => Panic
    | OutOfFuel => OutOfFuel
    end.

(** The store with the object at [p] set to [v], and with one more
    object, of value [v]. *)
Definition upd (h : store) (p : ptr) (v : Z) : store :=
  mkStore (fun q => if (q =? p)%nat then v else cells h q) (next h).

Definition alloc (h : store) (v : Z) : store :=
  mkStore (fun q => if (q =? next h)%nat then v else cells h q) (S (next h)).

(** Reading or writing through a pointer to no object panics (a nil
    dereference). *)
Definition get (p : ptr) : M Z :=
  fun h => if (p <? next h)%nat then Ret (cells h p, h) else Panic.

Definition put (p : ptr) (v : Z) : M unit :=
  fun h => if (p <? next h)%nat then Ret (tt, upd h p v) else Panic.

(** The methods of [*big.Int] the program calls: the operands are read,
    then the receiver [z] is written, and [z] is returned. *)
Module bigp.

Definition NewInt (v : Z) : M ptr := fun h => Ret (next h, alloc h v).

Definition binary (op : Z -> Z -> outcome Z) (z x y : ptr) : M ptr :=
  a <~ get x ;;
  b <~ get y ;;
  r <~ lift (op a b) ;;
  _ <~ put z r ;;
  ret z.

Definition Add (z x y : ptr) : M ptr :=
  binary (fun a b => Ret (big.Add a b)) z x y.
Definition Sub (z x y : ptr) : M ptr :=
  binary (fun a b => Ret (big.Sub a b)) z x y.
Definition Mul (z x y : ptr) : M ptr :=
  binary (fun a b => Ret (big.Mul a b)) z x y.
Definition Div (z x y : ptr) : M ptr := binary big.Div z x y.
(** [z.Exp(x, y, nil)] *)
Definition Exp (z x y : ptr) : M ptr :=
  binary (fun a b => Ret (big.Exp a b)) z x y.

Definition Neg (z x : ptr) : M ptr :=
  a <~ get x ;;
  _ <~ put z (big.Neg a) ;;
  ret z.

Definition Cmp (x y : ptr) : M Z :=
  a <~ get x ;;
  b <~ get y ;;
  ret (big.Cmp a b).

End bigp.

(** The loop of [arccot], lines 110-134, on the objects of its
    variables. *)
Fixpoint loop_p (fuel : nat) (sum xpower n sign zero square : ptr)
  : M unit :=
  match fuel with
  | O => lift OutOfFuel
  | S fuel' =>
      _ <~ bigp.Div xpower xpower square ;;
      term <~ bigp.NewInt 0 ;;
      _ <~ bigp.Div term xpower n ;;
      c <~ bigp.Cmp term zero ;;
      if c =? 0 then ret tt
      else
        addend <~ bigp.NewInt 0 ;;
        _ <~ bigp.Mul addend sign term ;;
        _ <~ bigp.Add sum sum addend ;;
        _ <~ bigp.Neg sign sign ;;
        two <~ bigp.NewInt 2 ;;
        _ <~ bigp.Add n n two ;;
        loop_p fuel' sum xpower n sign zero square
  end.

(** [arccot], lines 93-137. *)
Definition arccot_p (fuel : nat) (x unity : ptr) : M ptr :=
  sum <~ bigp.NewInt 0 ;;
  _ <~ bigp.Div sum unity x ;;
  xpower <~ bigp.NewInt 0 ;;
  _ <~ bigp.Div xpower unity x ;;
  n <~ bigp.NewInt 3 ;;
  sign <~ bigp.NewInt (-1) ;;
  zero <~ bigp.NewInt 0 ;;
  square <~ bigp.NewInt 0 ;;
  _ <~ bigp.Mul square x x ;;
  _ <~ loop_p fuel sum xpower n sign zero square ;;
  ret sum.

(** [π], lines 42-77. *)
Definition π_p (fuel : nat) (places : Z) : M ptr :=
  digits <~ bigp.NewInt places ;;
  unity <~ bigp.NewInt 0 ;;
  ten <~ bigp.NewInt 10 ;;
  exponent <~ bigp.NewInt 0 ;;
  e <~ bigp.Add exponent digits ten ;;
  _ <~ bigp.Exp unity ten e ;;
  pi <~ bigp.NewInt 4 ;;
  five <~ bigp.NewInt 5 ;;
  left <~ arccot_p fuel five unity ;;
  four <~ bigp.NewInt 4 ;;
  _ <~ bigp.Mul left left four ;;
  x239 <~ bigp.NewInt 239 ;;
  right <~ arccot_p fuel x239 unity ;;
  _ <~ bigp.Sub left left right ;;
  _ <~ bigp.Mul pi pi left ;;
  t <~ bigp.NewInt 0 ;;
  d <~ bigp.Exp t ten ten ;;
  _ <~ bigp.Div pi pi d ;;
  ret pi.

(** ** A division that checks its operands

    The truncating quotient, accepted only on a non-negative dividend and
    a positive divisor: on any other pair of operands it panics.  A run of
    the program over [checked_Quo] that does not panic has therefore met
    such operands at every division, and truncated there. *)
Definition checked_Quo (x y : Z) : outcome Z :=
  if ((0 <=? x) && (0 <? y))%bool then Ret (Z.quot x y) else Panic.

(** ** Notions the proofs are stated with

    The loop on the states the program reaches, with the floor quotient
    [/] that [big.Div] computes there. *)

(** Every state the loop sees has a non-negative [xpower] and a counter
    at least 3. *)
Definition good (s : loop_state) : Prop := 0 <= xpower s /\ 3 <= n s.

(** What a round makes of [xpower], and the term it computes. *)
Definition next_xpower (square : Z) (s : loop_state) : Z := xpower s / square.
Definition next_term (square : Z) (s : loop_state) : Z :=
  next_xpower square s / n s.

(** The state a round leaves when it breaks, and when it goes on. *)
Definition after_break (square : Z) (s : loop_state) : loop_state :=
  mkState (sum s) (next_xpower square s) (n s) (sign s).

Definition after_continue (square : Z) (s : loop_state) : loop_state :=
  mkState (sum s + sign s * next_term square s) (next_xpower square s)
          (n s + 2) (- sign s).

(** The state on entry to the loop of [arccot x unity]. *)
Definition init_state (x unity : Z) : loop_state :=
  mkState (unity / x) (unity / x) 3 (-1).

(** The number of rounds that is always enough at scale [unity]. *)
Definition rounds (unity : Z) : nat := S (Z.to_nat (Z.log2 unity)).

(** The scale [π] works at: the value of its local variable [unity]. *)
Definition unity_of (places : Z) : Z := big.Exp 10 (places + 10).

(** * Lemmas *)

(** ** Big-integer primitives on the operands the program meets *)

Lemma Cmp_eqb (a b : Z) : (big.Cmp a b =? 0) = (a =? b).
Proof.
  unfold big.Cmp.
  destruct (Z.compare_spec a b) as [E | L | L]; cbn; symmetry.
  - now apply Z.eqb_eq.
  - apply Z.eqb_neq. lia.
  - apply Z.eqb_neq. lia.
Qed.

(** On a non-negative dividend and a positive divisor, Euclidean division
    is the truncating quotient, which is also the floor quotient. *)
Lemma Div_nonneg (x y : Z) :
  0 <= x -> 0 < y -> big.Div x y = Ret (Z.quot x y).
Proof.
  intros Hx Hy. unfold big.Div, big.QuoRem.
  destruct (Z.eqb_spec y 0) as [E | _]; [lia |].
  pose proof (Z.rem_nonneg x y ltac:(lia) Hx) as Hr.
  destruct (Z.ltb_spec (Z.rem x y) 0); [lia | reflexivity].
Qed.

(** [Div] is Euclidean: with a negative dividend it is not the truncating
    quotient. *)
Example Div_euclidean :
  big.Div (-7) 2 = Ret (-4) /\ big.Quo (-7) 2 = Ret (-3) /\
  big.Div 7 (-2) = Ret (-3) /\ big.Div (-7) (-2) = Ret 4 /\
  big.Div 7 0 = Panic.
Proof. repeat split. Qed.

Lemma Div_floor (x y : Z) :
  0 <= x -> 0 < y -> big.Div x y = Ret (x / y).
Proof.
  intros Hx Hy. rewrite Div_nonneg by assumption.
  now rewrite Z.quot_div_nonneg.
Qed.

Lemma Exp_pos (y : Z) : 1 <= big.Exp 10 y.
Proof.
  unfold big.Exp. destruct (Z.leb_spec y 0); [lia |].
  pose proof (Z.pow_pos_nonneg 10 y ltac:(lia) ltac:(lia)). lia.
Qed.

Lemma Exp_pow (y : Z) : 0 <= y -> big.Exp 10 y = 10 ^ y.
Proof.
  intros Hy. unfold big.Exp. destruct (Z.leb_spec y 0); [| reflexivity].
  replace y with 0 by lia. reflexivity.
Qed.

(** ** The loop on the states the program reaches *)

Lemma next_xpower_nonneg sq s : 0 < sq -> good s -> 0 <= next_xpower sq s.
Proof. intros Hsq [Hx _]. unfold next_xpower. apply Z.div_pos; lia. Qed.

Lemma next_term_nonneg sq s : 0 < sq -> good s -> 0 <= next_term sq s.
Proof.
  intros Hsq Hg. unfold next_term.
  apply Z.div_pos; [now apply next_xpower_nonneg | destruct Hg; lia].
Qed.

Lemma after_continue_good sq s : 0 < sq -> good s -> good (after_continue sq s).
Proof.
  intros Hsq Hg. split; cbn.
  - now apply next_xpower_nonneg.
  - destruct Hg; lia.
Qed.

(** The loop under any division that agrees with the floor quotient on a
    non-negative dividend and a positive divisor. *)
Section FloorDivision.

Variable D : Z -> Z -> outcome Z.
Hypothesis D_floor : forall x y, 0 <= x -> 0 < y -> D x y = Ret (x / y).

Lemma loop_body_floor sq s :
  0 < sq -> good s ->
  loop_body D sq s =
  Ret (if next_term sq s =? 0 then Break (after_break sq s)
       else Continue (after_continue sq s)).
Proof.
  intros Hsq Hg. pose proof (next_xpower_nonneg sq s Hsq Hg) as Hnx.
  destruct Hg as [Hx Hn]. unfold loop_body.
  rewrite (D_floor (xpower s) sq) by lia. cbn [bind].
  fold (next_xpower sq s).
  rewrite (D_floor (next_xpower sq s) (n s)) by lia. cbn [bind].
  fold (next_term sq s). rewrite Cmp_eqb. unfold big.NewInt.
  destruct (next_term sq s =? 0); reflexivity.
Qed.

Lemma loop_unfold_floor fuel sq s :
  0 < sq -> good s ->
  loop D (S fuel) sq s =
  if next_term sq s =? 0 then Ret (after_break sq s)
  else loop D fuel sq (after_continue sq s).
Proof.
  intros Hsq Hg. cbn [loop]. rewrite loop_body_floor by assumption.
  cbn [bind]. destruct (next_term sq s =? 0); reflexivity.
Qed.

End FloorDivision.

Lemma loop_body_good sq s :
  0 < sq -> good s ->
  loop_body big.Div sq s =
  Ret (if next_term sq s =? 0 then Break (after_break sq s)
       else Continue (after_continue sq s)).
Proof. apply loop_body_floor, Div_floor. Qed.

Lemma loop_unfold_good fuel sq s :
  0 < sq -> good s ->
  loop big.Div (S fuel) sq s =
  if next_term sq s =? 0 then Ret (after_break sq s)
  else loop big.Div fuel sq (after_continue sq s).
Proof. apply loop_unfold_floor, Div_floor. Qed.

(** More fuel never changes a result. *)
Lemma loop_fuel_mono (Div : Z -> Z -> outcome Z) fuel :
  forall sq s s', loop Div fuel sq s = Ret s' ->
  forall fuel', (fuel <= fuel')%nat -> loop Div fuel' sq s = Ret s'.
Proof.
  induction fuel as [| fuel IH]; intros sq s s' H fuel' Hle; [discriminate |].
  destruct fuel' as [| fuel']; [lia |].
  cbn [loop] in *. destruct (loop_body Div sq s) as [[t | t] | |];
    cbn [bind] in *; try discriminate; [assumption |].
  apply (IH _ _ _ H). lia.
Qed.

(** [xpower] loses at least two bits per round, so a state whose [xpower]
    is below [2^f] leaves the loop within [f + 1] rounds. *)
Lemma loop_terminates f :
  forall sq s, 4 <= sq -> good s -> xpower s < 2 ^ Z.of_nat f ->
  exists s', loop big.Div (S f) sq s = Ret s'.
Proof.
  induction f as [| f IH]; intros sq s Hsq Hg Hlt;
    rewrite loop_unfold_good by (assumption || lia).
  - assert (xpower s = 0) as E by (destruct Hg; cbn in Hlt; lia).
    unfold next_term, next_xpower. rewrite E.
    rewrite !Zdiv_0_l. cbn. eauto.
  - destruct (next_term sq s =? 0); [eauto |].
    apply IH; [assumption | apply after_continue_good; [lia | assumption] |].
    cbn [after_continue xpower]. unfold next_xpower.
    apply Z.div_lt_upper_bound; [lia |].
    rewrite Nat2Z.inj_succ, Z.pow_succ_r in Hlt by lia.
    pose proof (Z.pow_pos_nonneg 2 (Z.of_nat f) ltac:(lia) ltac:(lia)).
    nia.
Qed.

(** The terms never grow from one round to the next. *)
Lemma next_term_decreasing sq s :
  0 < sq -> good s ->
  next_term sq (after_continue sq s) <= next_term sq s.
Proof.
  intros Hsq Hg. pose proof (next_xpower_nonneg sq s Hsq Hg) as Hnx.
  destruct Hg as [Hx Hn]. unfold next_term at 1.
  unfold next_xpower at 1. cbn [after_continue xpower n].
  unfold next_term. set (p := next_xpower sq s) in *.
  transitivity (p / (n s + 2)).
  - apply Z.div_le_mono; [lia |].
    apply Z.div_le_upper_bound; [lia | nia].
  - apply Z.div_le_compat_l; lia.
Qed.

(** An alternating sum of non-increasing terms stays between its last two
    partial sums: whatever the loop returns lies within one term of the
    sum it was entered with, on the side the sign points to. *)
Lemma loop_bounds fuel :
  forall sq s s', 0 < sq -> good s -> loop big.Div fuel sq s = Ret s' ->
  (sign s = -1 -> sum s - next_term sq s <= sum s' <= sum s) /\
  (sign s = 1 -> sum s <= sum s' <= sum s + next_term sq s).
Proof.
  induction fuel as [| fuel IH]; intros sq s s' Hsq Hg H; [discriminate |].
  rewrite loop_unfold_good in H by assumption.
  pose proof (next_term_nonneg sq s Hsq Hg) as Ht.
  destruct (Z.eqb_spec (next_term sq s) 0) as [E | NE].
  - injection H as <-. cbn [after_break sum]. lia.
  - apply IH in H; [| assumption | now apply after_continue_good].
    pose proof (next_term_decreasing sq s Hsq Hg) as Hd.
    pose proof (next_term_nonneg sq _ Hsq (after_continue_good sq s Hsq Hg)).
    cbn [after_continue sum sign] in H. destruct H as [Hm Hp].
    split; intros Hs; rewrite Hs in *;
      [specialize (Hp eq_refl) | specialize (Hm eq_refl)]; lia.
Qed.

(** ** [arccot] on its documented domain *)

Lemma init_state_good x unity :
  0 < x -> 0 <= unity -> good (init_state x unity).
Proof. intros Hx Hu. split; cbn; [apply Z.div_pos; lia | lia]. Qed.

Lemma arccot_unfold fuel x unity :
  0 < x -> 0 <= unity ->
  arccot fuel x unity =
  (s <- loop big.Div fuel (x * x) (init_state x unity) ;; Ret (sum s)).
Proof.
  intros Hx Hu. unfold arccot, arccot_with, arccot_init.
  rewrite (Div_floor unity x) by lia. reflexivity.
Qed.

Lemma arccot_fuel_mono fuel x unity v :
  arccot fuel x unity = Ret v ->
  forall fuel', (fuel <= fuel')%nat -> arccot fuel' x unity = Ret v.
Proof.
  unfold arccot, arccot_with. intros H fuel' Hle.
  destruct (arccot_init big.Div x unity) as [s0 | |]; cbn [bind] in *;
    try discriminate.
  destruct (loop big.Div fuel (big.Mul x x) s0) as [s | |] eqn:E;
    cbn [bind] in H; try discriminate.
  now rewrite (loop_fuel_mono _ _ _ _ _ E fuel' Hle).
Qed.

Lemma arccot_terminates x unity :
  2 <= x -> 1 <= unity ->
  exists v, arccot (rounds unity) x unity = Ret v.
Proof.
  intros Hx Hu. rewrite arccot_unfold by lia. unfold rounds.
  destruct (loop_terminates (Z.to_nat (Z.log2 unity)) (x * x)
              (init_state x unity)) as [s' Hs'].
  - nia.
  - apply init_state_good; lia.
  - cbn [init_state xpower]. rewrite Z2Nat.id by apply Z.log2_nonneg.
    pose proof (Z.log2_spec unity ltac:(lia)) as [_ Hlog].
    rewrite Z.pow_succ_r in Hlog by apply Z.log2_nonneg.
    apply Z.div_lt_upper_bound; [lia |].
    pose proof (Z.pow_pos_nonneg 2 (Z.log2 unity) ltac:(lia) (Z.log2_nonneg _)).
    nia.
  - rewrite Hs'. cbn. eauto.
Qed.

(** The value returned lies between the first term and the first term
    less the second. *)
Lemma arccot_bounds fuel x unity v :
  0 < x -> 0 <= unity -> arccot fuel x unity = Ret v ->
  unity / x - unity / x / (x * x) / 3 <= v <= unity / x.
Proof.
  intros Hx Hu H. rewrite arccot_unfold in H by assumption.
  destruct (loop big.Div fuel (x * x) (init_state x unity)) as [s | |] eqn:E;
    cbn [bind] in H; try discriminate.
  injection H as <-.
  apply loop_bounds in E; [| nia | now apply init_state_good].
  destruct E as [Hm _]. specialize (Hm eq_refl). exact Hm.
Qed.


(** No run of the loop from a good state panics: every divisor it meets
    is positive. *)
Lemma loop_no_panic fuel :
  forall sq s, 0 < sq -> good s -> loop big.Div fuel sq s <> Panic.
Proof.
  induction fuel as [| fuel IH]; intros sq s Hsq Hg; [discriminate |].
  rewrite loop_unfold_good by assumption.
  destruct (next_term sq s =? 0); [discriminate |].
  apply IH; [assumption | now apply after_continue_good].
Qed.

Lemma arccot_no_panic fuel x unity :
  0 < x -> 0 <= unity -> arccot fuel x unity <> Panic.
Proof.
  intros Hx Hu. rewrite arccot_unfold by assumption.
  pose proof (loop_no_panic fuel (x * x) (init_state x unity) ltac:(nia)
                (init_state_good x unity Hx Hu)) as Hl.
  destruct (loop big.Div fuel (x * x) (init_state x unity)); cbn;
    congruence.
Qed.

Lemma arccot_returns x unity :
  2 <= x -> 1 <= unity ->
  exists v, returns (fun fuel => arccot fuel x unity) v.
Proof.
  intros Hx Hu. destruct (arccot_terminates x unity Hx Hu) as [v Hv].
  exists v, (rounds unity). intros fuel Hle.
  now apply (arccot_fuel_mono _ _ _ _ Hv).
Qed.

(** ** The combiner [π] *)

Lemma unity_of_pos places : 1 <= unity_of places.
Proof. apply Exp_pos. Qed.

Lemma unity_of_nonneg places :
  0 <= places -> unity_of places = 10 ^ places * 10 ^ 10.
Proof.
  intros Hp. unfold unity_of. rewrite Exp_pow by lia.
  now rewrite Z.pow_add_r by lia.
Qed.

Lemma π_unfold fuel places :
  π fuel places =
  (left <- arccot fuel 5 (unity_of places) ;;
   right <- arccot fuel 239 (unity_of places) ;;
   big.Div (4 * (left * 4 - right)) (10 ^ 10)).
Proof. reflexivity. Qed.

(** Machin's combination of two values within the bounds [arccot_bounds]
    gives: it is non-negative, at most 3.2 units, and at least 3 units
    once the scale is 100 or more. *)
Lemma machin_bounds u a b :
  0 <= u ->
  u / 5 - u / 5 / (5 * 5) / 3 <= a <= u / 5 ->
  u / 239 - u / 239 / (239 * 239) / 3 <= b <= u / 239 ->
  0 <= 4 * (a * 4 - b) /\
  5 * (4 * (a * 4 - b)) <= 16 * u /\
  (100 <= u -> 3 * u <= 4 * (a * 4 - b)).
Proof.
  intros Hu Ha Hb. split; [| split; [| intros Hbig]];
    Z.div_mod_to_equations; lia.
Qed.

(** [π] returns, at every fuel from [rounds] on, the combination of what
    the two [arccot] calls return. *)
Lemma π_value places :
  exists a b,
    arccot (rounds (unity_of places)) 5 (unity_of places) = Ret a /\
    arccot (rounds (unity_of places)) 239 (unity_of places) = Ret b /\
    0 <= 4 * (a * 4 - b) /\
    5 * (4 * (a * 4 - b)) <= 16 * unity_of places /\
    (100 <= unity_of places -> 3 * unity_of places <= 4 * (a * 4 - b)) /\
    forall fuel, (rounds (unity_of places) <= fuel)%nat ->
      π fuel places = Ret (4 * (a * 4 - b) / 10 ^ 10).
Proof.
  pose proof (unity_of_pos places) as Hu.
  destruct (arccot_terminates 5 (unity_of places)) as [a Ha]; [lia | lia |].
  destruct (arccot_terminates 239 (unity_of places)) as [b Hb]; [lia | lia |].
  assert (0 <= unity_of places) as Hu0 by lia.
  pose proof (arccot_bounds _ 5 _ _ eq_refl Hu0 Ha) as Ba.
  pose proof (arccot_bounds _ 239 _ _ eq_refl Hu0 Hb) as Bb.
  destruct (machin_bounds (unity_of places) a b ltac:(lia) Ba Bb)
    as (M0 & M1 & M2).
  exists a, b. repeat split; try assumption.
  intros fuel Hle. rewrite π_unfold.
  rewrite (arccot_fuel_mono _ _ _ _ Ha fuel Hle). cbn [bind].
  rewrite (arccot_fuel_mono _ _ _ _ Hb fuel Hle). cbn [bind].
  apply Div_floor; [assumption | reflexivity].
Qed.

Lemma π_no_panic fuel places : π fuel places <> Panic.
Proof.
  pose proof (unity_of_pos places) as Hu. rewrite π_unfold.
  pose proof (arccot_no_panic fuel 5 (unity_of places) ltac:(lia) ltac:(lia)).
  pose proof (arccot_no_panic fuel 239 (unity_of places) ltac:(lia) ltac:(lia)).
  destruct (arccot fuel 5 (unity_of places)); cbn [bind]; try congruence.
  destruct (arccot fuel 239 (unity_of places)); cbn [bind]; try congruence.
  unfold big.Div. change (10 ^ 10 =? 0) with false. cbv iota.
  destruct (big.QuoRem _ _). discriminate.
Qed.

Lemma π_fuel_mono fuel places v :
  π fuel places = Ret v ->
  forall fuel', (fuel <= fuel')%nat -> π fuel' places = Ret v.
Proof.
  rewrite π_unfold. intros H fuel' Hle. rewrite π_unfold.
  destruct (arccot fuel 5 (unity_of places)) as [a | |] eqn:Ea;
    cbn [bind] in H; try discriminate.
  destruct (arccot fuel 239 (unity_of places)) as [b | |] eqn:Eb;
    cbn [bind] in H; try discriminate.
  rewrite (arccot_fuel_mono _ _ _ _ Ea fuel' Hle). cbn [bind].
  rewrite (arccot_fuel_mono _ _ _ _ Eb fuel' Hle). cbn [bind].
  exact H.
Qed.

Lemma π_returns_at fuel places v :
  π fuel places = Ret v -> returns (fun f => π f places) v.
Proof. intros H. exists fuel. intros f Hle. now apply (π_fuel_mono fuel). Qed.

Lemma arccot_returns_at fuel x unity v :
  arccot fuel x unity = Ret v -> returns (fun f => arccot f x unity) v.
Proof.
  intros H. exists fuel. intros f Hle. now apply (arccot_fuel_mono fuel).
Qed.

(** The loop runs a definite number of rounds: with less fuel it is still
    running, with that much or more it has returned. *)
Lemma loop_exact_rounds fuel :
  forall sq s s', 0 < sq -> good s -> loop big.Div fuel sq s = Ret s' ->
  exists k, (k <= fuel)%nat /\
    (forall f, (k <= f)%nat -> loop big.Div f sq s = Ret s') /\
    (forall f, (f < k)%nat -> loop big.Div f sq s = OutOfFuel).
Proof.
  induction fuel as [| fuel IH]; intros sq s s' Hsq Hg H; [discriminate |].
  rewrite loop_unfold_good in H by assumption.
  destruct (next_term sq s =? 0) eqn:E.
  - exists 1%nat. split; [lia |]. split; intros f Hf.
    + destruct f as [| f]; [lia |].
      rewrite loop_unfold_good by assumption. now rewrite E.
    + replace f with 0%nat by lia. reflexivity.
  - destruct (IH _ _ _ Hsq (after_continue_good sq s Hsq Hg) H)
      as (k & Hk & Hge & Hlt).
    exists (S k). split; [lia |]. split; intros f Hf.
    + destruct f as [| f]; [lia |].
      rewrite loop_unfold_good by assumption. rewrite E. apply Hge. lia.
    + destruct f as [| f]; [reflexivity |].
      rewrite loop_unfold_good by assumption. rewrite E. apply Hlt. lia.
Qed.

(** ** The loop against the specification's wording *)

Lemma spec_round_good x s :
  0 < x -> good s ->
  spec_round x s =
  if next_term (x * x) s =? 0 then Break (after_break (x * x) s)
  else Continue (after_continue (x * x) s).
Proof.
  intros Hx Hg. assert (0 < x * x) as Hsq by nia.
  pose proof (next_xpower_nonneg _ s Hsq Hg) as Hnx.
  destruct Hg as [Hxp Hn]. unfold spec_round. rewrite Z.pow_2_r.
  rewrite (Z.quot_div_nonneg (xpower s)) by lia.
  fold (next_xpower (x * x) s).
  rewrite (Z.quot_div_nonneg (next_xpower (x * x) s)) by lia.
  reflexivity.
Qed.

Lemma spec_init_good x unity :
  0 < x -> 0 <= unity -> spec_init x unity = init_state x unity.
Proof.
  intros Hx Hu. unfold spec_init, init_state.
  now rewrite Z.quot_div_nonneg by lia.
Qed.

Lemma loop_spec_loop fuel :
  forall x s, 0 < x -> good s ->
  (s' <- loop big.Div fuel (x * x) s ;; Ret (sum s')) = spec_loop fuel x s.
Proof.
  induction fuel as [| fuel IH]; intros x s Hx Hg; [reflexivity |].
  assert (0 < x * x) as Hsq by nia.
  rewrite loop_unfold_good by assumption. cbn [spec_loop].
  rewrite spec_round_good by assumption.
  destruct (next_term (x * x) s =? 0); [reflexivity |].
  apply IH; [assumption | now apply after_continue_good].
Qed.

(** Closed form of the loop variables after [k] rounds. *)
Lemma state_after_closed x unity k :
  0 < x -> 0 <= unity ->
  forall r,
    state_after big.Div k (x * x) (init_state x unity) = Ret (Some r) ->
    xpower (state_of r) = unity / x ^ (2 * Z.of_nat k + 1) /\
    match r with
    | Continue s =>
        good s /\ n s = 2 * Z.of_nat k + 3 /\
        sign s = (-1) ^ (Z.of_nat k + 1)
    | Break s => True
    end.
Proof.
  intros Hx Hu. assert (0 < x * x) as Hsq by nia.
  induction k as [| k IH]; intros r H.
  - injection H as <-. cbn [state_of init_state xpower n sign].
    change (2 * Z.of_nat 0 + 1) with 1. rewrite Z.pow_1_r.
    repeat split; try reflexivity; cbn; try lia.
    apply Z.div_pos; lia.
  - cbn [state_after] in H.
    destruct (state_after big.Div k (x * x) (init_state x unity))
      as [[[s | s] |] | |]; cbn [bind] in H; try discriminate.
    destruct (IH _ eq_refl) as (Hxp & Hg & Hn & Hsg).
    cbn [state_of] in Hxp.
    rewrite loop_body_good in H by assumption. cbn [bind] in H.
    injection H as <-.
    assert (next_xpower (x * x) s = unity / x ^ (2 * Z.of_nat (S k) + 1))
      as Hnext.
    { unfold next_xpower. rewrite Hxp.
      assert (0 < x ^ (2 * Z.of_nat k + 1)) as Hpow
        by (apply Z.pow_pos_nonneg; lia).
      rewrite Z.div_div by lia. f_equal.
      replace (2 * Z.of_nat (S k) + 1) with (2 * Z.of_nat k + 1 + 2) by lia.
      rewrite (Z.pow_add_r x (2 * Z.of_nat k + 1) 2) by lia.
      now rewrite Z.pow_2_r. }
    destruct (next_term (x * x) s =? 0);
      cbn [state_of after_break after_continue xpower n sign].
    + split; [exact Hnext | exact I].
    + split; [exact Hnext |]. split; [| split].
      * now apply after_continue_good.
      * lia.
      * rewrite Hsg.
        replace (Z.of_nat (S k) + 1) with (Z.succ (Z.of_nat k + 1)) by lia.
        rewrite Z.pow_succ_r by lia. lia.
Qed.

(** ** The program under a division that checks its operands *)

Lemma checked_Quo_floor x y :
  0 <= x -> 0 < y -> checked_Quo x y = Ret (x / y).
Proof.
  intros Hx Hy. unfold checked_Quo.
  destruct (Z.leb_spec 0 x); [| lia]. destruct (Z.ltb_spec 0 y); [| lia].
  cbn. now rewrite Z.quot_div_nonneg.
Qed.

Section FloorDivisionProgram.

Variable D : Z -> Z -> outcome Z.
Hypothesis D_floor : forall x y, 0 <= x -> 0 < y -> D x y = Ret (x / y).

Lemma loop_floor_eq fuel :
  forall sq s, 0 < sq -> good s -> loop D fuel sq s = loop big.Div fuel sq s.
Proof.
  induction fuel as [| fuel IH]; intros sq s Hsq Hg; [reflexivity |].
  rewrite (loop_unfold_floor D D_floor) by assumption.
  rewrite loop_unfold_good by assumption.
  destruct (next_term sq s =? 0); [reflexivity |].
  apply IH; [assumption | now apply after_continue_good].
Qed.

Lemma arccot_floor_eq fuel x unity :
  0 < x -> 0 <= unity -> arccot_with D fuel x unity = arccot fuel x unity.
Proof.
  intros Hx Hu. rewrite arccot_unfold by assumption.
  unfold arccot_with, arccot_init. rewrite (D_floor unity x) by lia.
  cbn [bind]. unfold big.NewInt, big.Mul. fold (init_state x unity).
  rewrite loop_floor_eq; [reflexivity | nia | now apply init_state_good].
Qed.

Lemma π_floor_eq fuel places : π_with D fuel places = π fuel places.
Proof.
  pose proof (unity_of_pos places) as Hu.
  assert (0 <= unity_of places) as Hu0 by lia.
  rewrite π_unfold. unfold π_with, big.NewInt, big.Add, big.Mul, big.Sub.
  fold (unity_of places).
  rewrite !arccot_floor_eq by lia.
  destruct (arccot fuel 5 (unity_of places)) as [a | |] eqn:Ea;
    cbn [bind]; try reflexivity.
  destruct (arccot fuel 239 (unity_of places)) as [b | |] eqn:Eb;
    cbn [bind]; try reflexivity.
  pose proof (arccot_bounds _ 5 _ _ eq_refl Hu0 Ea) as Ba.
  pose proof (arccot_bounds _ 239 _ _ eq_refl Hu0 Eb) as Bb.
  destruct (machin_bounds (unity_of places) a b Hu0 Ba Bb) as (M0 & _).
  change (big.Exp 10 10) with (10 ^ 10).
  rewrite D_floor by (assumption || reflexivity).
  now rewrite Div_floor by (assumption || reflexivity).
Qed.

End FloorDivisionProgram.

(** ** The series at two scales

    [arccot x (c * u)] against [c * arccot x u]: the two loops are run in
    lockstep.  Dividing the larger [xpower] by [c] gives the smaller one,
    the same holds for the terms, so each round moves the two sums apart
    by less than [c]; once the smaller loop has stopped, the terms left in
    the larger one are below [c] and alternate. *)

Lemma div_swap a c d : 0 < c -> 0 < d -> a / d / c = a / c / d.
Proof.
  intros Hc Hd. rewrite !Z.div_div by lia. f_equal. ring.
Qed.

Lemma div_scale_bounds t' c t :
  0 < c -> t' / c = t -> c * t <= t' <= c * t + (c - 1).
Proof.
  intros Hc <-. pose proof (Z.mul_div_le t' c Hc).
  pose proof (Z.mul_succ_div_gt t' c Hc). lia.
Qed.

Lemma loop_scaling c sq fuel :
  1 <= c -> 0 < sq ->
  forall s s' r fuel' r',
    good s -> good s' ->
    xpower s' / c = xpower s -> n s' = n s -> sign s' = sign s ->
    sign s = 1 \/ sign s = -1 ->
    loop big.Div fuel sq s = Ret r ->
    loop big.Div fuel' sq s' = Ret r' ->
    Z.abs (sum r' - c * sum r)
    <= Z.abs (sum s' - c * sum s) + (c - 1) * Z.of_nat fuel.
Proof.
  intros Hc Hsq. induction fuel as [| fuel IH];
    intros s s' r fuel' r' Hg Hg' Hxp Hn Hsg Hpm H H'; [discriminate |].
  rewrite loop_unfold_good in H by assumption.
  assert (next_xpower sq s' / c = next_xpower sq s) as Hnx.
  { unfold next_xpower. rewrite div_swap by lia. now rewrite Hxp. }
  assert (next_term sq s' / c = next_term sq s) as Hnt.
  { unfold next_term. rewrite div_swap by (destruct Hg'; lia).
    now rewrite Hnx, Hn. }
  pose proof (div_scale_bounds _ c _ ltac:(lia) Hnt) as Hb.
  pose proof (next_term_nonneg sq s Hsq Hg) as Ht.
  rewrite Nat2Z.inj_succ, Z.mul_succ_r.
  assert (0 <= (c - 1) * Z.of_nat fuel) as Hrest
    by (apply Z.mul_nonneg_nonneg; lia).
  destruct (Z.eqb_spec (next_term sq s) 0) as [E | NE].
  - injection H as <-. cbn [after_break sum].
    destruct (loop_bounds _ _ _ _ Hsq Hg' H') as [Hm Hp].
    rewrite E in Hb.
    destruct Hpm as [Hs | Hs]; rewrite <- Hsg in Hs;
      [specialize (Hp Hs) | specialize (Hm Hs)]; lia.
  - destruct fuel' as [| fuel']; [discriminate |].
    rewrite loop_unfold_good in H' by assumption.
    destruct (Z.eqb_spec (next_term sq s') 0) as [E' | _]; [nia |].
    pose proof (IH _ _ r fuel' r' (after_continue_good sq s Hsq Hg)
                  (after_continue_good sq s' Hsq Hg')) as IH'.
    cbn [after_continue xpower n sign sum] in IH'.
    specialize (IH' Hnx ltac:(lia) ltac:(lia) ltac:(lia) H H').
    rewrite Hsg in IH'.
    destruct Hpm as [Hs | Hs]; rewrite Hs in IH'; lia.
Qed.

Lemma arccot_scaling x u c fuel fuel' a a' :
  0 < x -> 0 <= u -> 1 <= c ->
  arccot fuel x u = Ret a ->
  arccot fuel' x (c * u) = Ret a' ->
  Z.abs (a' - c * a) <= (c - 1) * (Z.of_nat fuel + 1).
Proof.
  intros Hx Hu Hc H H'.
  assert (0 <= c * u) as Hcu by nia. assert (0 < x * x) as Hsq by nia.
  rewrite arccot_unfold in H, H' by assumption.
  destruct (loop big.Div fuel (x * x) (init_state x u)) as [r | |] eqn:E;
    cbn [bind] in H; try discriminate.
  destruct (loop big.Div fuel' (x * x) (init_state x (c * u)))
    as [r' | |] eqn:E'; cbn [bind] in H'; try discriminate.
  injection H as <-. injection H' as <-.
  assert (c * u / x / c = u / x) as Hinit.
  { rewrite div_swap by lia. now rewrite (Z.mul_comm c u), Z.div_mul by lia. }
  pose proof (loop_scaling c (x * x) fuel Hc Hsq _ _ _ _ _
                (init_state_good x u Hx Hu) (init_state_good x (c * u) Hx Hcu)
                Hinit eq_refl eq_refl (or_intror eq_refl) E E') as Hs.
  cbn [init_state sum] in Hs.
  pose proof (div_scale_bounds _ c _ ltac:(lia) Hinit). lia.
Qed.

(** ** Decimal numerals *)

Lemma decimal_rev_leading p :
  forall fuel v,
    (p < fuel)%nat ->
    3 * 10 ^ Z.of_nat p <= v < 4 * 10 ^ Z.of_nat p ->
    exists l, decimal_rev fuel v = (l ++ [3])%list /\ List.length l = p.
Proof.
  induction p as [| p IH]; intros fuel v Hf Hv;
    (destruct fuel as [| fuel]; [lia |]); cbn [decimal_rev].
  - change (10 ^ Z.of_nat 0) with 1 in Hv. replace v with 3 by lia.
    exists []. split; reflexivity.
  - rewrite Nat2Z.inj_succ, Z.pow_succ_r in Hv by lia.
    pose proof (Z.pow_pos_nonneg 10 (Z.of_nat p) ltac:(lia) ltac:(lia)) as Hp.
    destruct (Z.ltb_spec v 10) as [Hlt | _]; [lia |].
    destruct (IH fuel (v / 10)) as (l & Hl & Hlen); [lia | |].
    + split.
      * apply Z.div_le_lower_bound; lia.
      * apply Z.div_lt_upper_bound; lia.
    + exists (v mod 10 :: l). rewrite Hl. split; [reflexivity |].
      cbn [List.length]. now rewrite Hlen.
Qed.

Lemma string_of_digits_length l :
  String.length (string_of_digits l) = List.length l.
Proof.
  induction l as [| d l IH]; [reflexivity |]. cbn. f_equal. exact IH.
Qed.

(** A value between [3 * 10^p] and [4 * 10^p] prints as the character 3
    followed by [p] more digits. *)
Lemma Sprint_leading_3 p v :
  0 <= p -> 3 * 10 ^ p <= v < 4 * 10 ^ p ->
  exists rest,
    Sprint v = String "3" rest /\ String.length rest = Z.to_nat p.
Proof.
  intros Hp Hv.
  pose proof (Z.pow_pos_nonneg 10 p ltac:(lia) Hp) as H10.
  assert (2 ^ p <= 10 ^ p) as H2 by (apply Z.pow_le_mono_l; lia).
  assert (p <= Z.log2 v) as Hlog by (apply Z.log2_le_pow2; lia).
  unfold Sprint. destruct (Z.ltb_spec v 0) as [Hneg | _]; [lia |].
  unfold decimal.
  destruct (decimal_rev_leading (Z.to_nat p) (S (Z.to_nat (Z.log2 v))) v)
    as (l & Hl & Hlen); [lia | now rewrite Z2Nat.id by lia |].
  rewrite Hl, rev_app_distr. cbn [rev app string_of_digits fold_right].
  exists (string_of_digits (rev l)). split; [reflexivity |].
  fold (string_of_digits (rev l)).
  now rewrite string_of_digits_length, length_rev.
Qed.

(** For non-negative [places] the value [π] returns lies between
    [3 * 10^places] and [4 * 10^places]. *)
Lemma π_leading_range (places : Z) :
  0 <= places ->
  exists v,
    returns (fun fuel => π fuel places) v /\
    3 * 10 ^ places <= v < 4 * 10 ^ places.
Proof.
  intros Hp.
  destruct (π_value places) as (a & b & _ & _ & M0 & M1 & M2 & Hpi).
  rewrite (unity_of_nonneg places Hp) in M1, M2.
  pose proof (Z.pow_pos_nonneg 10 places ltac:(lia) Hp) as Hm.
  set (m := 10 ^ places) in *. set (N := 4 * (a * 4 - b)) in *.
  change (10 ^ 10) with 10000000000 in *.
  exists (N / 10000000000). split.
  - exists (rounds (unity_of places)). exact Hpi.
  - split.
    + apply Z.div_le_lower_bound; lia.
    + apply Z.div_lt_upper_bound; lia.
Qed.

(** ** Rounds of the loop, one by one *)

Lemma state_after_shift sq s k :
  0 < sq -> good s ->
  state_after big.Div (S k) sq s =
  if next_term sq s =? 0 then
    match k with
    | O => Ret (Some (Break (after_break sq s)))
    | S _ => Ret None
    end
  else state_after big.Div k sq (after_continue sq s).
Proof.
  intros Hsq Hg. induction k as [| k IH].
  - cbn [state_after bind]. rewrite loop_body_good by assumption.
    cbn [bind]. destruct (next_term sq s =? 0); reflexivity.
  - change (state_after big.Div (S (S k)) sq s)
      with (r <- state_after big.Div (S k) sq s ;;
            match r with
            | Some (Continue s1) =>
                r' <- loop_body big.Div sq s1 ;; Ret (Some r')
            | _ => Ret None
            end).
    rewrite IH. destruct (next_term sq s =? 0); [| reflexivity].
    destruct k; reflexivity.
Qed.

(** The round in which the loop returns is the round that breaks, on a
    zero term. *)
Lemma loop_break_round k :
  forall sq s r, 0 < sq -> good s ->
  loop big.Div (S k) sq s = Ret r ->
  loop big.Div k sq s = OutOfFuel ->
  state_after big.Div (S k) sq s = Ret (Some (Break r)) /\
  xpower r / n r = 0.
Proof.
  induction k as [| k IH]; intros sq s r Hsq Hg H Hout;
    rewrite state_after_shift by assumption;
    rewrite loop_unfold_good in H by assumption.
  - destruct (Z.eqb_spec (next_term sq s) 0) as [E | _]; [| discriminate].
    injection H as <-. split; [reflexivity | exact E].
  - rewrite loop_unfold_good in Hout by assumption.
    destruct (next_term sq s =? 0); [discriminate |].
    apply IH; [assumption | now apply after_continue_good | assumption ..].
Qed.

(** ** Division by any divisor, and the loop on any state *)

(** With a positive divisor Euclidean division is the floor quotient,
    whatever the sign of the dividend. *)
Lemma Div_pos_divisor (x y : Z) : 0 < y -> big.Div x y = Ret (x / y).
Proof.
  intros Hy. unfold big.Div, big.QuoRem.
  destruct (Z.eqb_spec y 0) as [E | _]; [lia |].
  pose proof (Z.quot_rem' x y) as Hqr.
  pose proof (Z.rem_bound_abs x y ltac:(lia)) as Habs.
  f_equal. destruct (Z.ltb_spec (Z.rem x y) 0) as [Hneg | Hpos].
  - destruct (Z.ltb_spec y 0); [lia |].
    apply (Z.div_unique_pos x y _ (Z.rem x y + y)); lia.
  - apply (Z.div_unique_pos x y _ (Z.rem x y)); lia.
Qed.

Lemma Div_nonzero_ret (x y : Z) : y <> 0 -> exists q, big.Div x y = Ret q.
Proof.
  intros Hy. unfold big.Div, big.QuoRem.
  destruct (Z.eqb_spec y 0) as [E | _]; [contradiction | eauto].
Qed.

Lemma loop_never_panics fuel :
  forall sq s, sq <> 0 -> 3 <= n s -> loop big.Div fuel sq s <> Panic.
Proof.
  induction fuel as [| fuel IH]; intros sq s Hsq Hn; [discriminate |].
  cbn [loop]. unfold loop_body.
  destruct (Div_nonzero_ret (xpower s) sq Hsq) as [xp ->]. cbn [bind].
  destruct (Div_nonzero_ret xp (n s) ltac:(lia)) as [t ->]. cbn [bind].
  destruct (big.Cmp t (big.NewInt 0) =? 0); cbn [bind]; [discriminate |].
  apply IH; [assumption |]. cbn [n]. unfold big.Add, big.NewInt. lia.
Qed.

(** A negative [xpower] stays negative, and so does the term. *)
Lemma loop_negative_diverges fuel :
  forall sq s, 0 < sq -> xpower s < 0 -> 3 <= n s ->
  loop big.Div fuel sq s = OutOfFuel.
Proof.
  induction fuel as [| fuel IH]; intros sq s Hsq Hx Hn; [reflexivity |].
  cbn [loop]. unfold loop_body.
  rewrite (Div_pos_divisor (xpower s) sq) by assumption. cbn [bind].
  assert (xpower s / sq < 0) as Hxp
    by (apply Z.div_lt_upper_bound; lia).
  rewrite (Div_pos_divisor (xpower s / sq) (n s)) by lia. cbn [bind].
  assert (xpower s / sq / n s < 0) as Ht
    by (apply Z.div_lt_upper_bound; lia).
  rewrite Cmp_eqb. unfold big.NewInt.
  destruct (Z.eqb_spec (xpower s / sq / n s) 0) as [E | _]; [lia |].
  cbn [bind]. apply IH; [assumption | exact Hxp |].
  cbn [n]. unfold big.Add. lia.
Qed.

(** ** The sum the loop returns, term by term *)

Lemma series_term_next x unity j s :
  0 < x ->
  xpower s = unity / x ^ (2 * Z.of_nat j + 1) ->
  n s = 2 * Z.of_nat j + 3 ->
  next_term (x * x) s = series_term x unity (S j).
Proof.
  intros Hx Hxp Hn. unfold next_term, next_xpower, series_term.
  rewrite Hxp, Hn.
  assert (0 < x ^ (2 * Z.of_nat j + 1)) as Hpow
    by (apply Z.pow_pos_nonneg; lia).
  rewrite (Z.div_div unity) by nia.
  replace (2 * Z.of_nat (S j) + 1) with (2 * Z.of_nat j + 1 + 2) by lia.
  rewrite (Z.pow_add_r x (2 * Z.of_nat j + 1) 2) by lia.
  rewrite Z.pow_2_r. f_equal. lia.
Qed.

Lemma loop_series x unity fuel :
  0 < x -> 0 <= unity ->
  forall j s r,
    good s ->
    xpower s = unity / x ^ (2 * Z.of_nat j + 1) ->
    n s = 2 * Z.of_nat j + 3 ->
    sign s = (-1) ^ Z.of_nat (S j) ->
    sum s = series_sum x unity (S j) ->
    loop big.Div fuel (x * x) s = Ret r ->
    exists m : nat,
      sum r = series_sum x unity (S (j + m)) /\
      series_term x unity (S (j + m)) = 0 /\
      (forall i, (j < i < S (j + m))%nat -> series_term x unity i <> 0) /\
      loop big.Div (S m) (x * x) s = Ret r /\
      (forall f, (f <= m)%nat -> loop big.Div f (x * x) s = OutOfFuel).
Proof.
  intros Hx Hu. assert (0 < x * x) as Hsq by nia.
  induction fuel as [| fuel IH]; intros j s r Hg Hxp Hn Hsg Hsum H;
    [discriminate |].
  pose proof (series_term_next x unity j s Hx Hxp Hn) as Hterm.
  rewrite loop_unfold_good in H by assumption.
  destruct (Z.eqb_spec (next_term (x * x) s) 0) as [E | NE].
  - injection H as <-. exists 0%nat. rewrite Nat.add_0_r.
    split; [exact Hsum |]. split; [now rewrite <- Hterm |].
    split; [intros i Hi; lia |]. split.
    + rewrite loop_unfold_good by assumption.
      destruct (Z.eqb_spec (next_term (x * x) s) 0); [reflexivity | lia].
    + intros f Hf. replace f with 0%nat by lia. reflexivity.
  - destruct (IH (S j) (after_continue (x * x) s) r)
      as (m & Hr & Hz & Hnz & Hrun & Hout).
    + now apply after_continue_good.
    + cbn [after_continue xpower]. unfold next_xpower. rewrite Hxp.
      assert (0 < x ^ (2 * Z.of_nat j + 1)) as Hpow
        by (apply Z.pow_pos_nonneg; lia).
      rewrite Z.div_div by lia. f_equal.
      replace (2 * Z.of_nat (S j) + 1) with (2 * Z.of_nat j + 1 + 2) by lia.
      rewrite (Z.pow_add_r x (2 * Z.of_nat j + 1) 2) by lia.
      now rewrite Z.pow_2_r.
    + cbn [after_continue n]. lia.
    + cbn [after_continue sign]. rewrite Hsg.
      rewrite (Nat2Z.inj_succ (S j)), Z.pow_succ_r by lia. lia.
    + cbn [after_continue sum]. rewrite Hsum, Hsg, Hterm. reflexivity.
    + exact H.
    + exists (S m). replace (S (j + S m)) with (S (S j + m)) by lia.
      split; [exact Hr |]. split; [exact Hz |]. split; [| split].
      * intros i Hi. destruct (Nat.eq_dec i (S j)) as [-> | Hne].
        -- now rewrite <- Hterm.
        -- apply Hnz. lia.
      * rewrite loop_unfold_good by assumption.
        destruct (Z.eqb_spec (next_term (x * x) s) 0); [lia | exact Hrun].
      * intros f Hf. destruct f as [| f]; [reflexivity |].
        rewrite loop_unfold_good by assumption.
        destruct (Z.eqb_spec (next_term (x * x) s) 0); [lia |].
        apply Hout. lia.
Qed.

(** ** The program on the store *)

Lemma next_upd h p v : next (upd h p v) = next h.
Proof. reflexivity. Qed.

Lemma next_alloc h v : next (alloc h v) = S (next h).
Proof. reflexivity. Qed.

Lemma cells_upd_eq h p v q : q = p -> cells (upd h p v) q = v.
Proof. intros ->. cbn. now rewrite Nat.eqb_refl. Qed.

Lemma cells_upd_neq h p v q : q <> p -> cells (upd h p v) q = cells h q.
Proof.
  intros Hne. cbn. destruct (Nat.eqb_spec q p); [contradiction | reflexivity].
Qed.

Lemma cells_alloc_eq h v q : q = next h -> cells (alloc h v) q = v.
Proof. intros ->. cbn. now rewrite Nat.eqb_refl. Qed.

Lemma cells_alloc_neq h v q : q <> next h -> cells (alloc h v) q = cells h q.
Proof.
  intros Hne. cbn.
  destruct (Nat.eqb_spec q (next h)); [contradiction | reflexivity].
Qed.

Ltac solve_ptr := repeat (rewrite ?next_upd, ?next_alloc); lia.

Ltac store_simpl :=
  repeat first
    [ rewrite next_upd
    | rewrite next_alloc
    | rewrite cells_upd_eq by solve_ptr
    | rewrite cells_upd_neq by solve_ptr
    | rewrite cells_alloc_eq by solve_ptr
    | rewrite cells_alloc_neq by solve_ptr ].

(** ** The methods on objects that exist *)

Lemma bindM_run {A B : Type} (m : M A) (k : A -> M B) h a h' :
  m h = Ret (a, h') -> (x <~ m ;; k x) h = k a h'.
Proof. intros E. unfold bindM. now rewrite E. Qed.

Lemma bindM_panic {A B : Type} (m : M A) (k : A -> M B) h :
  m h = Panic -> (x <~ m ;; k x) h = Panic.
Proof. intros E. unfold bindM. now rewrite E. Qed.

Lemma bindM_out_of_fuel {A B : Type} (m : M A) (k : A -> M B) h :
  m h = OutOfFuel -> (x <~ m ;; k x) h = OutOfFuel.
Proof. intros E. unfold bindM. now rewrite E. Qed.

Lemma NewInt_run v h : bigp.NewInt v h = Ret (next h, alloc h v).
Proof. reflexivity. Qed.

Lemma binary_run op z x y h :
  (x < next h)%nat -> (y < next h)%nat -> (z < next h)%nat ->
  bigp.binary op z x y h =
  match op (cells h x) (cells h y) with
  | Ret r => Ret (z, upd h z r)
  | Panic => Panic
  | OutOfFuel => OutOfFuel
  end.
Proof.
  intros Hx Hy Hz. unfold bigp.binary, bindM, get, put, lift, ret.
  destruct (Nat.ltb_spec x (next h)); [| lia].
  destruct (Nat.ltb_spec y (next h)); [| lia].
  destruct (op (cells h x) (cells h y)); try reflexivity.
  destruct (Nat.ltb_spec z (next h)); [reflexivity | lia].
Qed.

Lemma Neg_run z x h :
  (x < next h)%nat -> (z < next h)%nat ->
  bigp.Neg z x h = Ret (z, upd h z (big.Neg (cells h x))).
Proof.
  intros Hx Hz. unfold bigp.Neg, bindM, get, put, ret.
  destruct (Nat.ltb_spec x (next h)); [| lia].
  destruct (Nat.ltb_spec z (next h)); [reflexivity | lia].
Qed.

Lemma Cmp_run x y h :
  (x < next h)%nat -> (y < next h)%nat ->
  bigp.Cmp x y h = Ret (big.Cmp (cells h x) (cells h y), h).
Proof.
  intros Hx Hy. unfold bigp.Cmp, bindM, get, ret.
  destruct (Nat.ltb_spec x (next h)); [| lia].
  destruct (Nat.ltb_spec y (next h)); [reflexivity | lia].
Qed.

(** One statement of the source after the other. *)
Ltac run_NewInt := rewrite (bindM_run _ _ _ _ _ (NewInt_run _ _)).

(** ** The loop on the store against the loop on values *)

Lemma loop_p_sim fuel :
  forall h s sq b,
    (S (S (S (S (S b)))) < next h)%nat ->
    cells h b = sum s ->
    cells h (S b) = xpower s ->
    cells h (S (S b)) = n s ->
    cells h (S (S (S b))) = sign s ->
    cells h (S (S (S (S b)))) = 0 ->
    cells h (S (S (S (S (S b))))) = sq ->
    match loop big.Div fuel sq s with
    | Ret s' =>
        exists h',
          loop_p fuel b (S b) (S (S b)) (S (S (S b))) (S (S (S (S b))))
                 (S (S (S (S (S b))))) h = Ret (tt, h') /\
          (next h <= next h')%nat /\
          cells h' b = sum s' /\
          forall q, (q < b)%nat -> cells h' q = cells h q
    | Panic =>
        loop_p fuel b (S b) (S (S b)) (S (S (S b))) (S (S (S (S b))))
               (S (S (S (S (S b))))) h = Panic
    | OutOfFuel =>
        loop_p fuel b (S b) (S (S b)) (S (S (S b))) (S (S (S (S b))))
               (S (S (S (S (S b))))) h = OutOfFuel
    end.
Proof.
  induction fuel as [| fuel IH];
    intros h s sq b Hb Hsum Hxp Hn Hsg Hz Hsq; [reflexivity |].
  cbn [loop loop_p]. unfold loop_body.
  (* xpower.Div(xpower, square) *)
  assert (bigp.Div (S b) (S b) (S (S (S (S (S b))))) h =
          match big.Div (xpower s) sq with
          | Ret r => Ret (S b, upd h (S b) r)
          | Panic => Panic
          | OutOfFuel => OutOfFuel
          end) as E1
    by (unfold bigp.Div; rewrite binary_run by lia; now rewrite Hxp, Hsq).
  destruct (big.Div (xpower s) sq) as [xp | |]; cbn [bind];
    [| now apply bindM_panic | now apply bindM_out_of_fuel].
  rewrite (bindM_run _ _ _ _ _ E1). clear E1.
  (* term := big.NewInt(0) *)
  run_NewInt. store_simpl.
  (* term.Div(xpower, n) *)
  assert (bigp.Div (next h) (S b) (S (S b)) (alloc (upd h (S b) xp) 0) =
          match big.Div xp (n s) with
          | Ret r => Ret (next h, upd (alloc (upd h (S b) xp) 0) (next h) r)
          | Panic => Panic
          | OutOfFuel => OutOfFuel
          end) as E2.
  { unfold bigp.Div. rewrite binary_run by solve_ptr. store_simpl.
    now rewrite Hn. }
  destruct (big.Div xp (n s)) as [t | |]; cbn [bind];
    [| now apply bindM_panic | now apply bindM_out_of_fuel].
  rewrite (bindM_run _ _ _ _ _ E2). clear E2.
  (* term.Cmp(zero) *)
  erewrite bindM_run; [| rewrite Cmp_run by solve_ptr; reflexivity].
  store_simpl. rewrite Hz. unfold big.NewInt.
  destruct (big.Cmp t 0 =? 0).
  - (* break *)
    cbn [bind]. eexists. split; [reflexivity |].
    store_simpl. split; [lia |]. split; [exact Hsum |].
    intros q Hq. now store_simpl.
  - cbn [bind].
    (* addend := big.NewInt(0); addend.Mul(sign, term) *)
    run_NewInt. store_simpl.
    erewrite bindM_run;
      [| unfold bigp.Mul; rewrite binary_run by solve_ptr; reflexivity].
    (* sum.Add(sum, addend) *)
    erewrite bindM_run;
      [| unfold bigp.Add; rewrite binary_run by solve_ptr; reflexivity].
    (* sign.Neg(sign) *)
    erewrite bindM_run; [| rewrite Neg_run by solve_ptr; reflexivity].
    (* n.Add(n, big.NewInt(2)) *)
    run_NewInt.
    erewrite bindM_run;
      [| unfold bigp.Add; rewrite binary_run by solve_ptr; reflexivity].
    match goal with
    | |- context [loop_p fuel _ _ _ _ _ _ ?h9] =>
        specialize (IH h9
          (mkState (big.Add (sum s) (big.Mul (sign s) t)) xp
                   (big.Add (n s) 2) (big.Neg (sign s))) sq b);
        set (h' := h9) in *
    end.
    assert (next h' = S (S (S (next h)))) as Hnext
      by (unfold h'; now store_simpl).
    assert (forall q, (q < b)%nat -> cells h' q = cells h q) as Hframe
      by (intros q Hq; unfold h'; now store_simpl).
    cbn [sum xpower n sign] in IH.
    assert (cells h' b = big.Add (sum s) (big.Mul (sign s) t)) as C0
      by (unfold h'; store_simpl; now rewrite Hsum, Hsg).
    assert (cells h' (S b) = xp) as C1 by (unfold h'; now store_simpl).
    assert (cells h' (S (S b)) = big.Add (n s) 2) as C2
      by (unfold h'; store_simpl; now rewrite Hn).
    assert (cells h' (S (S (S b))) = big.Neg (sign s)) as C3
      by (unfold h'; store_simpl; now rewrite Hsg).
    assert (cells h' (S (S (S (S b)))) = 0) as C4
      by (unfold h'; store_simpl; exact Hz).
    assert (cells h' (S (S (S (S (S b))))) = sq) as C5
      by (unfold h'; store_simpl; exact Hsq).
    specialize (IH ltac:(lia) C0 C1 C2 C3 C4 C5).
    destruct (loop big.Div fuel sq _) as [s' | |]; [| exact IH ..].
    destruct IH as (h'' & Hrun & Hle & Hs & Hfr).
    exists h''. split; [exact Hrun |]. split; [lia |].
    split; [exact Hs |]. intros q Hq. rewrite (Hfr q Hq). now apply Hframe.
Qed.

(** The store is state: a method changes the object it is called on, so
    the same call made twice need not give the same value twice. *)
Example store_is_state :
  forall h, exists p h1 h2,
    bigp.NewInt 1 h = Ret (p, h1) /\
    (_ <~ bigp.Add p p p ;; bigp.Add p p p) h1 = Ret (p, h2) /\
    cells h1 p = 1 /\ cells h2 p = 4.
Proof.
  intros h. eexists. eexists. eexists. split; [reflexivity |].
  split.
  - erewrite bindM_run;
      [| unfold bigp.Add; rewrite binary_run by solve_ptr; reflexivity].
    unfold bigp.Add. rewrite binary_run by solve_ptr. reflexivity.
  - split; now store_simpl.
Qed.

(** [arccot] on the store computes what [arccot] on values computes
    from the values of its two arguments; its result is a new object,
    and no object that existed before the call is changed. *)
Lemma arccot_p_sim fuel h x unity :
  (x < next h)%nat -> (unity < next h)%nat ->
  match arccot fuel (cells h x) (cells h unity) with
  | Ret v =>
      exists h',
        arccot_p fuel x unity h = Ret (next h, h') /\
        (next h < next h')%nat /\
        cells h' (next h) = v /\
        forall q, (q < next h)%nat -> cells h' q = cells h q
  | Panic => arccot_p fuel x unity h = Panic
  | OutOfFuel => arccot_p fuel x unity h = OutOfFuel
  end.
Proof.
  intros Hx Hu. unfold arccot, arccot_with, arccot_init, arccot_p.
  (* sum := big.NewInt(0); sum.Div(unity, x) *)
  run_NewInt.
  assert (bigp.Div (next h) unity x (alloc h 0) =
          match big.Div (cells h unity) (cells h x) with
          | Ret r => Ret (next h, upd (alloc h 0) (next h) r)
          | Panic => Panic
          | OutOfFuel => OutOfFuel
          end) as E1
    by (unfold bigp.Div; rewrite binary_run by solve_ptr; now store_simpl).
  destruct (big.Div (cells h unity) (cells h x)) as [q0 | |] eqn:Eq;
    cbn [bind]; [| now apply bindM_panic | now apply bindM_out_of_fuel].
  rewrite (bindM_run _ _ _ _ _ E1). clear E1.
  (* xpower := big.NewInt(0); xpower.Div(unity, x) *)
  run_NewInt. store_simpl.
  erewrite bindM_run;
    [| unfold bigp.Div; rewrite binary_run by solve_ptr; store_simpl;
       rewrite Eq; reflexivity].
  (* n, sign, zero, square *)
  run_NewInt. run_NewInt. run_NewInt. run_NewInt. store_simpl.
  erewrite bindM_run;
    [| unfold bigp.Mul; rewrite binary_run by solve_ptr; store_simpl;
       reflexivity].
  (* the loop *)
  match goal with
  | |- context [bindM (loop_p fuel _ _ _ _ _ _) _ ?h6] => set (h1 := h6)
  end.
  pose proof (loop_p_sim fuel h1
                (mkState q0 q0 (big.NewInt 3) (big.NewInt (-1)))
                (big.Mul (cells h x) (cells h x)) (next h)) as Hloop.
  cbn [sum xpower n sign] in Hloop.
  assert (next h1 = S (S (S (S (S (S (next h))))))) as Hnext
    by (unfold h1; now store_simpl).
  assert (forall q, (q < next h)%nat -> cells h1 q = cells h q) as Hframe
    by (intros q Hq; unfold h1; now store_simpl).
  specialize (Hloop ltac:(lia)
                ltac:(unfold h1; now store_simpl)
                ltac:(unfold h1; now store_simpl)
                ltac:(unfold h1; now store_simpl)
                ltac:(unfold h1; now store_simpl)
                ltac:(unfold h1; now store_simpl)
                ltac:(unfold h1; now store_simpl)).
  destruct (loop big.Div fuel _ _) as [s' | |]; cbn [bind].
  - destruct Hloop as (h' & Hrun & Hle & Hs & Hfr).
    exists h'. rewrite (bindM_run _ _ _ _ _ Hrun).
    split; [reflexivity |]. split; [lia |]. split; [exact Hs |].
    intros q Hq. rewrite (Hfr q Hq). now apply Hframe.
  - now apply bindM_panic.
  - now apply bindM_out_of_fuel.
Qed.

(** [π] on the store computes what [π] on values computes, whatever
    the store it starts in; its result is a new object, and no object
    that existed before the call is changed. *)
Lemma π_p_sim fuel places h :
  match π fuel places with
  | Ret v =>
      exists p h',
        π_p fuel places h = Ret (p, h') /\
        (next h <= p < next h')%nat /\
        cells h' p = v /\
        forall q, (q < next h)%nat -> cells h' q = cells h q
  | Panic => π_p fuel places h = Panic
  | OutOfFuel => π_p fuel places h = OutOfFuel
  end.
Proof.
  unfold π, π_with, π_p. change (arccot_with big.Div) with arccot.
  (* digits, unity, ten, exponent; unity = 10**(digits + 10) *)
  run_NewInt. run_NewInt. run_NewInt. run_NewInt. store_simpl.
  erewrite bindM_run;
    [| unfold bigp.Add; rewrite binary_run by solve_ptr; store_simpl;
       reflexivity].
  erewrite bindM_run;
    [| unfold bigp.Exp; rewrite binary_run by solve_ptr; store_simpl;
       reflexivity].
  (* pi := big.NewInt(4); left := arccot(big.NewInt(5), unity) *)
  run_NewInt. run_NewInt. store_simpl.
  match goal with
  | |- context [bindM (arccot_p fuel ?x ?u) _ ?hA] =>
      pose proof (arccot_p_sim fuel hA x u) as Hleft; set (h1 := hA) in *
  end.
  assert (next h1 = S (S (S (S (S (S (next h))))))) as Hnext1
    by (unfold h1; now store_simpl).
  assert (cells h1 (S (S (S (S (S (next h)))))) = big.NewInt 5) as Hfive
    by (unfold h1; now store_simpl).
  assert (cells h1 (S (next h)) =
          big.Exp (big.NewInt 10) (big.Add (big.NewInt places) (big.NewInt 10)))
    as Hunity by (unfold h1; now store_simpl).
  assert (cells h1 (S (S (next h))) = big.NewInt 10) as Hten
    by (unfold h1; now store_simpl).
  assert (cells h1 (S (S (S (S (next h))))) = big.NewInt 4) as Hpi
    by (unfold h1; now store_simpl).
  assert (forall q, (q < next h)%nat -> cells h1 q = cells h q) as Hframe1
    by (intros q Hq; unfold h1; now store_simpl).
  clearbody h1.
  specialize (Hleft ltac:(lia) ltac:(lia)). rewrite Hfive, Hunity in Hleft.
  destruct (arccot fuel _ _) as [a | |] eqn:Ea; cbn [bind];
    [| now apply bindM_panic | now apply bindM_out_of_fuel].
  destruct Hleft as (h2 & Hrun2 & Hlt2 & Ha & Hfr2).
  rewrite (bindM_run _ _ _ _ _ Hrun2).
  (* left.Mul(left, big.NewInt(4)) *)
  run_NewInt.
  erewrite bindM_run;
    [| unfold bigp.Mul; rewrite binary_run by solve_ptr; store_simpl;
       rewrite Ha; reflexivity].
  (* right := arccot(big.NewInt(239), unity) *)
  run_NewInt. store_simpl.
  match goal with
  | |- context [bindM (arccot_p fuel ?x ?u) _ ?hB] =>
      pose proof (arccot_p_sim fuel hB x u) as Hright; set (h3 := hB) in *
  end.
  assert (next h3 = S (S (next h2))) as Hnext3
    by (unfold h3; now store_simpl).
  assert (cells h3 (S (next h2)) = big.NewInt 239) as H239
    by (unfold h3; now store_simpl).
  assert (cells h3 (next h1) = big.Mul a (big.NewInt 4)) as Hl3
    by (unfold h3; now store_simpl).
  assert (forall q, (q < next h1)%nat -> cells h3 q = cells h1 q) as Hframe3.
  { intros q Hq. unfold h3. store_simpl. now apply Hfr2. }
  clearbody h3.
  specialize (Hright ltac:(lia) ltac:(lia)).
  rewrite H239, (Hframe3 (S (next h)) ltac:(lia)), Hunity in Hright.
  destruct (arccot fuel (big.NewInt 239) _) as [b | |] eqn:Eb; cbn [bind];
    [| now apply bindM_panic | now apply bindM_out_of_fuel].
  destruct Hright as (h4 & Hrun4 & Hlt4 & Hb & Hfr4).
  rewrite (bindM_run _ _ _ _ _ Hrun4).
  (* left.Sub(left, right); pi.Mul(pi, left) *)
  erewrite bindM_run;
    [| unfold bigp.Sub; rewrite binary_run by solve_ptr;
       rewrite (Hfr4 (next h1)) by lia; rewrite Hl3, Hb; reflexivity].
  erewrite bindM_run;
    [| unfold bigp.Mul; rewrite binary_run by solve_ptr; store_simpl;
       rewrite (Hfr4 (S (S (S (S (next h)))))) by lia;
       rewrite (Hframe3 (S (S (S (S (next h)))))) by lia;
       rewrite Hpi; reflexivity].
  (* pi.Div(pi, big.NewInt(0).Exp(ten, ten, nil)) *)
  run_NewInt.
  erewrite bindM_run;
    [| unfold bigp.Exp; rewrite binary_run by solve_ptr; store_simpl;
       rewrite (Hfr4 (S (S (next h)))) by lia;
       rewrite (Hframe3 (S (S (next h)))) by lia;
       rewrite Hten; reflexivity].
  match goal with
  | |- context [bindM (bigp.Div ?p ?p ?d) _ ?hC] =>
      assert (bigp.Div p p d hC =
              match big.Div (big.Mul (big.NewInt 4)
                               (big.Sub (big.Mul a (big.NewInt 4)) b))
                            (big.Exp (big.NewInt 10) (big.NewInt 10)) with
              | Ret r => Ret (p, upd hC p r)
              | Panic => Panic
              | OutOfFuel => OutOfFuel
              end) as Ediv
        by (unfold bigp.Div; rewrite binary_run by solve_ptr;
            now store_simpl)
  end.
  destruct (big.Div _ _) as [r | |];
    [| now apply bindM_panic | now apply bindM_out_of_fuel].
  rewrite (bindM_run _ _ _ _ _ Ediv). clear Ediv.
  eexists. eexists. split; [reflexivity |].
  store_simpl. split; [lia |]. split; [reflexivity |].
  intros q Hq. store_simpl.
  rewrite (Hfr4 q) by lia. rewrite (Hframe3 q) by lia. now apply Hframe1.
Qed.

(** * The properties of the specification *)

(** C1. Known values: [π(0)] is 3, [π(5)] is 314159, and [π(50)] is the
    integer written with the first 51 significant decimal digits of pi,
    3 followed by its first 50 decimals. *)
Theorem known_values :
  returns (fun fuel => π fuel 0) 3 /\
  returns (fun fuel => π fuel 5) 314159 /\
  returns (fun fuel => π fuel 50)
          314159265358979323846264338327950288419716939937510.
Proof.
  repeat split.
  - apply (π_returns_at 40). vm_compute. reflexivity.
  - apply (π_returns_at 40). vm_compute. reflexivity.
  - apply (π_returns_at 100). vm_compute. reflexivity.
Qed.

(** C2. Machin combiner: for every non-negative [places], [π places] runs
    [arccot 5] and [arccot 239] at [unity = 10^(places + 10)], takes
    [left = 4 * arccot 5], [right = arccot 239], multiplies [left - right]
    by 4 and divides by [10^10]; the value it returns is
    [(16 * arccot 5 - 4 * arccot 239)] integer-divided by [10^10]. *)
Theorem machin_structure (places : Z) :
  0 <= places ->
  let unity := 10 ^ (places + 10) in
  (forall fuel,
     π fuel places =
     (a <- arccot fuel 5 unity ;;
      b <- arccot fuel 239 unity ;;
      let left := 4 * a in
      let right := b in
      big.Div (4 * (left - right)) (10 ^ 10))) /\
  exists a b,
    returns (fun fuel => arccot fuel 5 unity) a /\
    returns (fun fuel => arccot fuel 239 unity) b /\
    returns (fun fuel => π fuel places) (Z.quot (16 * a - 4 * b) (10 ^ 10)).
Proof.
  intros Hp unity.
  assert (unity_of places = unity) as Eu
    by (unfold unity_of; now rewrite Exp_pow by lia).
  split.
  - intros fuel. rewrite π_unfold, Eu.
    destruct (arccot fuel 5 unity) as [a | |]; cbn [bind]; try reflexivity.
    destruct (arccot fuel 239 unity) as [b | |]; cbn [bind]; try reflexivity.
    now rewrite (Z.mul_comm a 4).
  - destruct (π_value places) as (a & b & Ha & Hb & M0 & _ & _ & Hpi).
    rewrite Eu in *. exists a, b. split; [| split].
    + now apply (arccot_returns_at (rounds unity)).
    + now apply (arccot_returns_at (rounds unity)).
    + exists (rounds unity). intros fuel Hle. rewrite (Hpi fuel Hle).
      replace (16 * a - 4 * b) with (4 * (a * 4 - b)) by ring.
      now rewrite Z.quot_div_nonneg by (assumption || reflexivity).
Qed.

Lemma machin_structure_witness :
  0 <= 5 /\
  exists a b,
    returns (fun fuel => arccot fuel 5 (10 ^ (5 + 10))) a /\
    returns (fun fuel => arccot fuel 239 (10 ^ (5 + 10))) b /\
    returns (fun fuel => π fuel 5) (Z.quot (16 * a - 4 * b) (10 ^ 10)).
Proof.
  split; [lia |]. apply (machin_structure 5). lia.
Defined.

(** C3. Series evaluation steps: for [x >= 2] and [unity >= 1], [arccot]
    starts with [sum = xpower = unity / x], counter 3 and sign -1; in the
    state reached after [k] rounds the counter is [2k + 3] and the sign
    [(-1)^(k+1)], and the next round does what the specification words:
    [xpower / x^2], [term = xpower / n], stop at a zero term, else add
    [sign * term], flip the sign, add 2 to the counter.  So [arccot] is
    the evaluator of the specification, and after [k] rounds [xpower] is
    [unity / x^(2k+1)]. *)
Theorem arccot_series_steps (x unity : Z) :
  2 <= x -> 1 <= unity ->
  arccot_init big.Div x unity = Ret (spec_init x unity) /\
  (forall k s,
     arccot_state_after big.Div k x unity = Ret (Some (Continue s)) ->
     loop_body big.Div (x * x) s = Ret (spec_round x s) /\
     n s = 2 * Z.of_nat k + 3 /\
     sign s = (-1) ^ (Z.of_nat k + 1)) /\
  (forall fuel, arccot fuel x unity = spec_arccot fuel x unity) /\
  (forall k r,
     arccot_state_after big.Div k x unity = Ret (Some r) ->
     xpower (state_of r) = Z.quot unity (x ^ (2 * Z.of_nat k + 1))).
Proof.
  intros Hx Hu.
  assert (0 < x) as Hx0 by lia. assert (0 <= unity) as Hu0 by lia.
  assert (0 < x * x) as Hsq by nia.
  assert (forall k, arccot_state_after big.Div k x unity =
                    state_after big.Div k (x * x) (init_state x unity))
    as Hafter.
  { intros k. unfold arccot_state_after, arccot_init.
    rewrite (Div_floor unity x) by lia. reflexivity. }
  split; [| split; [| split]].
  - unfold arccot_init. rewrite (Div_floor unity x) by lia. cbn [bind].
    now rewrite spec_init_good by lia.
  - intros k s H. rewrite Hafter in H.
    destruct (state_after_closed x unity k Hx0 Hu0 _ H)
      as (_ & Hg & Hn & Hsg).
    split; [| split; assumption].
    rewrite loop_body_good, spec_round_good by assumption.
    destruct (next_term (x * x) s =? 0); reflexivity.
  - intros fuel. rewrite arccot_unfold by lia.
    unfold spec_arccot. rewrite spec_init_good by lia.
    apply loop_spec_loop; [lia | now apply init_state_good].
  - intros k r H. rewrite Hafter in H.
    destruct (state_after_closed x unity k Hx0 Hu0 _ H) as (Hxp & _).
    rewrite Hxp. symmetry. apply Z.quot_div_nonneg; [lia |].
    apply Z.pow_pos_nonneg; lia.
Qed.

Lemma arccot_series_steps_witness :
  2 <= 5 /\ 1 <= 1000000 /\
  arccot_state_after big.Div 2 5 1000000
  = Ret (Some (Continue (mkState 197398 320 7 (-1)))) /\
  xpower (mkState 197398 320 7 (-1)) = Z.quot 1000000 (5 ^ 5) /\
  arccot 10 5 1000000 = spec_arccot 10 5 1000000.
Proof.
  assert (2 <= 5) as H5 by lia. assert (1 <= 1000000) as Hu by lia.
  destruct (arccot_series_steps 5 1000000 H5 Hu) as (_ & _ & Hspec & Hxp).
  assert (arccot_state_after big.Div 2 5 1000000
          = Ret (Some (Continue (mkState 197398 320 7 (-1))))) as Hst
    by (vm_compute; reflexivity).
  split; [exact H5 |]. split; [exact Hu |]. split; [exact Hst |].
  split; [exact (Hxp 2%nat _ Hst) | exact (Hspec 10%nat)].
Defined.

(** C4. Termination of the series loop: for [x >= 2] and [unity >= 1] the
    loop of [arccot x unity] runs a definite, finite number [k] of rounds,
    at most [rounds unity] (one more than the binary logarithm of
    [unity]): with fuel [k] or more [arccot] returns its value, with less
    it is still running.  In every round entered [xpower] is non-negative
    and at least four times what the round leaves of it, and round [k] is
    the one that breaks, its term [xpower / n] being zero.  [arccot] is
    total on this domain. *)
Theorem arccot_termination (x unity : Z) :
  2 <= x -> 1 <= unity ->
  exists (k : nat) (v : Z) (s' : loop_state),
    (1 <= k <= rounds unity)%nat /\
    (forall fuel, (k <= fuel)%nat -> arccot fuel x unity = Ret v) /\
    (forall fuel, (fuel < k)%nat -> arccot fuel x unity = OutOfFuel) /\
    arccot_state_after big.Div k x unity = Ret (Some (Break s')) /\
    sum s' = v /\ xpower s' / n s' = 0 /\
    (forall j s,
       arccot_state_after big.Div j x unity = Ret (Some (Continue s)) ->
       0 <= xpower s /\ 4 * (xpower s / (x * x)) <= xpower s).
Proof.
  intros Hx Hu. destruct (arccot_terminates x unity Hx Hu) as [v Hv].
  rewrite arccot_unfold in Hv by lia.
  destruct (loop big.Div (rounds unity) (x * x) (init_state x unity))
    as [s' | |] eqn:E; cbn [bind] in Hv; try discriminate.
  injection Hv as <-.
  assert (0 < x * x) as Hsq by nia.
  assert (good (init_state x unity)) as Hg0
    by (apply init_state_good; lia).
  assert (forall j, arccot_state_after big.Div j x unity =
                    state_after big.Div j (x * x) (init_state x unity))
    as Hafter.
  { intros j. unfold arccot_state_after, arccot_init.
    rewrite (Div_floor unity x) by lia. reflexivity. }
  destruct (loop_exact_rounds _ _ _ _ Hsq Hg0 E) as (k & Hk & Hge & Hlt).
  destruct k as [| k]; [specialize (Hge 0%nat (le_n 0)); discriminate |].
  destruct (loop_break_round k _ _ _ Hsq Hg0 (Hge (S k) (le_n _))
              (Hlt k (Nat.lt_succ_diag_r k))) as [Hbreak Hzero].
  exists (S k), (sum s'), s'. split; [lia |].
  split; [| split; [| split; [| split; [| split]]]].
  - intros fuel Hf. rewrite arccot_unfold by lia. now rewrite (Hge fuel Hf).
  - intros fuel Hf. rewrite arccot_unfold by lia. now rewrite (Hlt fuel Hf).
  - now rewrite Hafter.
  - reflexivity.
  - exact Hzero.
  - intros j s Hs. rewrite Hafter in Hs.
    destruct (state_after_closed x unity j ltac:(lia) ltac:(lia) _ Hs)
      as (_ & [Hxp _] & _).
    split; [assumption |].
    pose proof (Z.mul_div_le (xpower s) (x * x) Hsq).
    assert (0 <= xpower s / (x * x)) by (apply Z.div_pos; lia).
    nia.
Qed.

Lemma arccot_termination_witness :
  2 <= 5 /\ 1 <= 1000 /\
  exists (k : nat) (v : Z) (s' : loop_state),
    (1 <= k <= rounds 1000)%nat /\
    (forall fuel, (k <= fuel)%nat -> arccot fuel 5 1000 = Ret v) /\
    (forall fuel, (fuel < k)%nat -> arccot fuel 5 1000 = OutOfFuel) /\
    arccot_state_after big.Div k 5 1000 = Ret (Some (Break s')) /\
    sum s' = v /\ xpower s' / n s' = 0 /\
    (forall j s,
       arccot_state_after big.Div j 5 1000 = Ret (Some (Continue s)) ->
       0 <= xpower s /\ 4 * (xpower s / (5 * 5)) <= xpower s).
Proof.
  split; [lia |]. split; [lia |]. apply (arccot_termination 5 1000); lia.
Defined.

(** C5. Truncating division: on the documented domain every division
    [arccot] and [π] perform has a non-negative dividend and a positive
    divisor, so that Go's Euclidean [Div] is there the quotient truncated
    toward zero: run over [checked_Quo], which panics on any other
    operands, the program behaves as over [big.Div], and does not
    panic. *)
Theorem divisions_truncate (fuel : nat) (x unity places : Z) :
  2 <= x -> 1 <= unity ->
  (arccot_with checked_Quo fuel x unity = arccot fuel x unity /\
   arccot fuel x unity <> Panic) /\
  (π_with checked_Quo fuel places = π fuel places /\
   π fuel places <> Panic) /\
  (forall a b, 0 <= a -> 0 < b -> big.Div a b = Ret (Z.quot a b)).
Proof.
  intros Hx Hu. split; [split | split; [split |]].
  - apply arccot_floor_eq; [exact checked_Quo_floor | lia | lia].
  - apply arccot_no_panic; lia.
  - apply π_floor_eq. exact checked_Quo_floor.
  - apply π_no_panic.
  - exact Div_nonneg.
Qed.

Lemma divisions_truncate_witness :
  2 <= 239 /\ 1 <= 10 ^ 20 /\
  (arccot_with checked_Quo 30 239 (10 ^ 20) = arccot 30 239 (10 ^ 20) /\
   arccot 30 239 (10 ^ 20) <> Panic) /\
  (π_with checked_Quo 30 10 = π 30 10 /\ π 30 10 <> Panic) /\
  (forall a b, 0 <= a -> 0 < b -> big.Div a b = Ret (Z.quot a b)).
Proof.
  split; [lia |]. split; [now vm_compute |].
  apply (divisions_truncate 30 239 (10 ^ 20) 10); [lia | now vm_compute].
Defined.

(** C6. Totality: for every non-negative [places], [π places] completes
    and returns a value, at every fuel from [rounds] of its scale on, and
    at no fuel does any operation fail: no run panics, so every divisor
    ([5], [239], their squares, the odd counters and [10^10]) is nonzero.
    With [places = 0] the scale is [10^10]. *)
Theorem combiner_total (places : Z) :
  0 <= places ->
  1 <= unity_of places /\
  (exists v, returns (fun fuel => π fuel places) v) /\
  (forall fuel, (rounds (unity_of places) <= fuel)%nat ->
     exists v, π fuel places = Ret v) /\
  (forall fuel, π fuel places <> Panic) /\
  (places = 0 -> unity_of places = 10 ^ 10).
Proof.
  intros Hp. destruct (π_value places) as (a & b & _ & _ & _ & _ & _ & Hpi).
  split; [apply unity_of_pos |]. split; [| split; [| split]].
  - eexists. exists (rounds (unity_of places)). exact Hpi.
  - intros fuel Hle. eexists. exact (Hpi fuel Hle).
  - intros fuel. apply π_no_panic.
  - intros ->. reflexivity.
Qed.

Lemma combiner_total_witness :
  0 <= 0 /\
  1 <= unity_of 0 /\
  (exists v, returns (fun fuel => π fuel 0) v) /\
  (forall fuel, (rounds (unity_of 0) <= fuel)%nat ->
     exists v, π fuel 0 = Ret v) /\
  (forall fuel, π fuel 0 <> Panic) /\
  (0 = 0 -> unity_of 0 = 10 ^ 10).
Proof.
  split; [lia |]. apply (combiner_total 0). lia.
Defined.

(** C8. Determinism and idempotence: [π] keeps no state between calls.
    On the store of [big.Int] objects, where a call starts in whatever
    the calls before it have left, [π places] always returns an object
    of the same value [v], the one [π] on values returns: a second call
    made in the store the first has left returns a second object with
    the same value, leaves the result of the first call as it was, and
    neither call changes an object that existed before; and whatever two
    calls in whatever two stores return, at whatever fuels, they return
    the same value. *)
Theorem combiner_deterministic (places : Z) :
  exists (v : Z) (k : nat),
    returns (fun fuel => π fuel places) v /\
    (forall (h0 : store) (fuel1 fuel2 : nat),
       (k <= fuel1)%nat -> (k <= fuel2)%nat ->
       exists p1 h1 p2 h2,
         π_p fuel1 places h0 = Ret (p1, h1) /\
         π_p fuel2 places h1 = Ret (p2, h2) /\
         cells h1 p1 = v /\ cells h2 p2 = v /\ cells h2 p1 = v /\
         p1 <> p2 /\
         (forall q, (q < next h0)%nat -> cells h2 q = cells h0 q)) /\
    (forall (h h' g g' : store) (fuel fuel' : nat) (p p' : ptr),
       π_p fuel places h = Ret (p, g) ->
       π_p fuel' places h' = Ret (p', g') ->
       cells g p = v /\ cells g' p' = v).
Proof.
  destruct (π_value places) as (a & b & _ & _ & _ & _ & _ & Hpi).
  set (v := 4 * (a * 4 - b) / 10 ^ 10) in *.
  set (k := rounds (unity_of places)) in *.
  exists v, k. split; [exists k; exact Hpi |]. split.
  - intros h0 fuel1 fuel2 H1 H2.
    pose proof (π_p_sim fuel1 places h0) as S1.
    rewrite (Hpi fuel1 H1) in S1.
    destruct S1 as (p1 & h1 & R1 & [Hlo1 Hhi1] & V1 & F1).
    pose proof (π_p_sim fuel2 places h1) as S2.
    rewrite (Hpi fuel2 H2) in S2.
    destruct S2 as (p2 & h2 & R2 & [Hlo2 Hhi2] & V2 & F2).
    exists p1, h1, p2, h2.
    split; [exact R1 |]. split; [exact R2 |]. split; [exact V1 |].
    split; [exact V2 |]. split; [now rewrite (F2 p1 Hhi1) |].
    split; [lia |].
    intros q Hq. rewrite (F2 q) by lia. now apply F1.
  - assert (forall h g fuel p, π_p fuel places h = Ret (p, g) ->
                               cells g p = v) as Hone.
    { intros h g fuel p R. pose proof (π_p_sim fuel places h) as S.
      destruct (π fuel places) as [w | |] eqn:E.
      - destruct S as (p0 & g0 & R0 & _ & V0 & _).
        rewrite R in R0. injection R0 as -> ->. rewrite V0.
        pose proof (π_fuel_mono _ _ _ E (Nat.max fuel k) ltac:(lia)) as E1.
        rewrite (Hpi (Nat.max fuel k) ltac:(lia)) in E1. congruence.
      - rewrite R in S. discriminate.
      - rewrite R in S. discriminate. }
    intros h h' g g' fuel fuel' p p' R R'. split; eapply Hone; eassumption.
Qed.

(** C9. Leading digit: for every non-negative [places], the value [π]
    returns lies in [3 * 10^places, 4 * 10^places): written in decimal it
    is the digit 3 followed by [places] further digits, which is what
    [main] relies on when it drops the first character of the printed
    integer and prints ["3."] and the rest. *)
Theorem leading_digit (places : Z) :
  0 <= places ->
  exists v rest,
    returns (fun fuel => π fuel places) v /\
    3 * 10 ^ places <= v < 4 * 10 ^ places /\
    Sprint v = String "3" rest /\
    String.length rest = Z.to_nat places /\
    returns (fun fuel => main fuel places)
            ("3." ++ rest ++ newline)%string.
Proof.
  intros Hp.
  destruct (π_leading_range places Hp) as (v & [k Hv] & Hrange).
  destruct (Sprint_leading_3 places v Hp Hrange) as (rest & Hs & Hlen).
  exists v, rest. split; [now exists k |]. split; [assumption |].
  split; [assumption |]. split; [assumption |].
  exists k. intros fuel Hle. unfold main. rewrite (Hv fuel Hle).
  cbn [bind]. now rewrite Hs.
Qed.

Lemma leading_digit_witness :
  0 <= 7 /\
  exists v rest,
    returns (fun fuel => π fuel 7) v /\
    3 * 10 ^ 7 <= v < 4 * 10 ^ 7 /\
    Sprint v = String "3" rest /\
    String.length rest = Z.to_nat 7 /\
    returns (fun fuel => main fuel 7)
            ("3." ++ rest ++ newline)%string.
Proof.
  split; [lia |]. apply (leading_digit 7). lia.
Defined.

(** C10. Negative [places]: [π] still terminates and returns 0.  Below
    -10 the exponent [places + 10] is negative, [Exp] yields the scale 1
    and both [arccot] calls return 0; from -10 to -1 the scale is at most
    [10^9], too small for anything to be left by the division by
    [10^10]. *)
Theorem negative_places (places : Z) :
  places < 0 ->
  returns (fun fuel => π fuel places) 0 /\
  (places < -10 ->
     unity_of places = 1 /\
     returns (fun fuel => arccot fuel 5 (unity_of places)) 0 /\
     returns (fun fuel => arccot fuel 239 (unity_of places)) 0) /\
  (-10 <= places ->
     unity_of places = 10 ^ (places + 10) /\ unity_of places <= 10 ^ 9).
Proof.
  intros Hneg.
  assert (unity_of places <= 10 ^ 9) as Hsmall.
  { unfold unity_of, big.Exp. destruct (Z.leb_spec (places + 10) 0).
    - now vm_compute.
    - apply Z.pow_le_mono_r; lia. }
  split; [| split].
  - destruct (π_value places) as (a & b & _ & _ & M0 & M1 & _ & Hpi).
    exists (rounds (unity_of places)). intros fuel Hle.
    rewrite (Hpi fuel Hle). f_equal.
    change (10 ^ 9) with 1000000000 in Hsmall.
    change (10 ^ 10) with 10000000000.
    apply Z.div_small. lia.
  - intros Hlt.
    assert (unity_of places = 1) as ->.
    { unfold unity_of, big.Exp.
      destruct (Z.leb_spec (places + 10) 0); [reflexivity | lia]. }
    split; [reflexivity |].
    split; apply (arccot_returns_at 1); reflexivity.
  - intros Hge. split; [| assumption].
    unfold unity_of. apply Exp_pow. lia.
Qed.

Lemma negative_places_witness :
  -3 < 0 /\
  returns (fun fuel => π fuel (-3)) 0 /\
  (-3 < -10 ->
     unity_of (-3) = 1 /\
     returns (fun fuel => arccot fuel 5 (unity_of (-3))) 0 /\
     returns (fun fuel => arccot fuel 239 (unity_of (-3))) 0) /\
  (-10 <= -3 ->
     unity_of (-3) = 10 ^ (-3 + 10) /\ unity_of (-3) <= 10 ^ 9).
Proof.
  split; [lia |]. apply (negative_places (-3)). lia.
Defined.

(** * Agreement of the results at two precisions *)

Lemma rounds_unity_bound d :
  0 <= d -> Z.of_nat (rounds (unity_of d)) <= 4 * (d + 10).
Proof.
  intros Hd. unfold rounds. rewrite Nat2Z.inj_succ.
  rewrite Z2Nat.id by apply Z.log2_nonneg.
  pose proof (unity_of_pos d) as Hu.
  enough (Z.log2 (unity_of d) < 4 * (d + 10)) by lia.
  apply Z.log2_lt_pow2; [lia |].
  unfold unity_of. rewrite Exp_pow by lia.
  rewrite Z.pow_mul_r by lia. change (2 ^ 4) with 16.
  apply Z.pow_lt_mono_l; lia.
Qed.

(** The guarded values [4 * (4a - b)] of the runs at [d1] and at [d2]
    places: the larger, cut back by [10^(d2 - d1)], is within 20 units
    per round of the smaller run. *)
Lemma π_two_scales (d1 d2 : Z) :
  0 <= d1 < d2 ->
  exists G1 G2,
    returns (fun fuel => π fuel d1) (G1 / 10 ^ 10) /\
    returns (fun fuel => π fuel d2) (G2 / 10 ^ 10) /\
    G2 / 10 ^ 10 / 10 ^ (d2 - d1) = G2 / 10 ^ (d2 - d1) / 10 ^ 10 /\
    let R := Z.of_nat (rounds (unity_of d1)) + 1 in
    G1 - 20 * R <= G2 / 10 ^ (d2 - d1) <= G1 + 20 * R.
Proof.
  intros Hd.
  destruct (π_value d1) as (a1 & b1 & Ha1 & Hb1 & M1 & _ & _ & Hpi1).
  destruct (π_value d2) as (a2 & b2 & Ha2 & Hb2 & M2 & _ & _ & Hpi2).
  pose proof (unity_of_pos d1) as Hu1.
  set (c := 10 ^ (d2 - d1)).
  assert (1 <= c) as Hc
    by (pose proof (Z.pow_pos_nonneg 10 (d2 - d1) ltac:(lia) ltac:(lia));
        unfold c; lia).
  assert (unity_of d2 = c * unity_of d1) as Hu2.
  { rewrite !unity_of_nonneg by lia. unfold c.
    replace d2 with (d2 - d1 + d1) at 1 by lia.
    rewrite Z.pow_add_r by lia. ring. }
  rewrite Hu2 in Ha2, Hb2.
  assert (0 <= unity_of d1) as Hu0 by lia.
  pose proof (arccot_scaling 5 _ c _ _ _ _ eq_refl Hu0 Hc Ha1 Ha2) as Sa.
  pose proof (arccot_scaling 239 _ c _ _ _ _ eq_refl Hu0 Hc Hb1 Hb2) as Sb.
  set (R := Z.of_nat (rounds (unity_of d1)) + 1) in *.
  exists (4 * (a1 * 4 - b1)), (4 * (a2 * 4 - b2)).
  split; [exists (rounds (unity_of d1)); exact Hpi1 |].
  split; [exists (rounds (unity_of d2)); exact Hpi2 |].
  split; [apply div_swap; lia |].
  cbv zeta. split.
  - apply Z.div_le_lower_bound; [lia |]. nia.
  - apply Z.div_le_upper_bound; [lia |]. nia.
Qed.

(** X6. The first [d1] decimals of [π d2] against [π d1], for [d1 < d2]: the
    two differ by at most one unit of the last place, plus what the
    truncations of the [d1] run can add up to past its ten guard digits;
    the bound does not depend on [d2]. *)
Theorem precision_drift_bound (d1 d2 : Z) :
  0 <= d1 < d2 ->
  exists v1 v2,
    returns (fun fuel => π fuel d1) v1 /\
    returns (fun fuel => π fuel d2) v2 /\
    Z.abs (v2 / 10 ^ (d2 - d1) - v1) <= 1 + (80 * (d1 + 10) + 20) / 10 ^ 10.
Proof.
  intros Hd.
  destruct (π_two_scales d1 d2 Hd) as (G1 & G2 & H1 & H2 & Hswap & Hq).
  pose proof (rounds_unity_bound d1 ltac:(lia)) as HR.
  exists (G1 / 10 ^ 10), (G2 / 10 ^ 10).
  split; [exact H1 |]. split; [exact H2 |].
  rewrite Hswap. cbv zeta in Hq.
  set (q := G2 / 10 ^ (d2 - d1)) in *.
  set (R := Z.of_nat (rounds (unity_of d1))) in *.
  change (10 ^ 10) with 10000000000.
  Z.div_mod_to_equations. lia.
Qed.

Lemma precision_drift_bound_witness :
  0 <= 5 < 50 /\
  exists v1 v2,
    returns (fun fuel => π fuel 5) v1 /\
    returns (fun fuel => π fuel 50) v2 /\
    Z.abs (v2 / 10 ^ (50 - 5) - v1) <= 1 + (80 * (5 + 10) + 20) / 10 ^ 10.
Proof.
  split; [lia |]. apply (precision_drift_bound 5 50). lia.
Defined.

(** X7. Up to a hundred million digits the guard digits absorb every
    truncation: the first [d1] decimals of [π d2] and [π d1] differ by at
    most one unit of the last place, whatever [d2]. *)
Theorem precision_agrees_to_last_digit (d1 d2 : Z) :
  0 <= d1 < d2 -> d1 <= 10 ^ 8 ->
  exists v1 v2,
    returns (fun fuel => π fuel d1) v1 /\
    returns (fun fuel => π fuel d2) v2 /\
    Z.abs (v2 / 10 ^ (d2 - d1) - v1) <= 1.
Proof.
  intros Hd Hsmall.
  destruct (π_two_scales d1 d2 Hd) as (G1 & G2 & H1 & H2 & Hswap & Hq).
  pose proof (rounds_unity_bound d1 ltac:(lia)) as HR.
  exists (G1 / 10 ^ 10), (G2 / 10 ^ 10).
  split; [exact H1 |]. split; [exact H2 |].
  rewrite Hswap. cbv zeta in Hq.
  set (q := G2 / 10 ^ (d2 - d1)) in *.
  set (R := Z.of_nat (rounds (unity_of d1))) in *.
  change (10 ^ 8) with 100000000 in Hsmall.
  change (10 ^ 10) with 10000000000.
  Z.div_mod_to_equations. lia.
Qed.

Lemma precision_agrees_to_last_digit_witness :
  0 <= 5 < 50 /\ 5 <= 10 ^ 8 /\
  exists v1 v2,
    returns (fun fuel => π fuel 5) v1 /\
    returns (fun fuel => π fuel 50) v2 /\
    Z.abs (v2 / 10 ^ (50 - 5) - v1) <= 1.
Proof.
  split; [lia |]. split; [now vm_compute |].
  apply (precision_agrees_to_last_digit 5 50); [lia | now vm_compute].
Defined.

(** * Further properties of [arccot] *)

Lemma arccot_terminates_nonneg x unity :
  2 <= x -> 0 <= unity ->
  exists v, arccot (rounds unity) x unity = Ret v.
Proof.
  intros Hx Hu. destruct (Z.eq_dec unity 0) as [-> | Hne].
  - rewrite arccot_unfold by lia. change (rounds 0) with 1%nat.
    destruct (loop_terminates 0 (x * x) (init_state x 0)) as [s' Hs'].
    + nia.
    + apply init_state_good; lia.
    + cbn [init_state xpower]. rewrite Zdiv_0_l. reflexivity.
    + rewrite Hs'. cbn. eauto.
  - apply arccot_terminates; lia.
Qed.

(** X3. [arccot] panics exactly when [x] is zero, on the first division: no
    other divisor it meets (the square of [x], the odd counters) can be
    zero, whatever the scale and however long it runs. *)
Theorem arccot_panics_iff (fuel : nat) (x unity : Z) :
  arccot fuel x unity = Panic <-> x = 0.
Proof.
  split.
  - intros H. destruct (Z.eq_dec x 0) as [E | NE]; [exact E | exfalso].
    unfold arccot, arccot_with, arccot_init in H.
    destruct (Div_nonzero_ret unity x NE) as [q Eq].
    rewrite Eq in H. cbn [bind] in H.
    assert (big.Mul x x <> 0) as Hsq by (unfold big.Mul; nia).
    pose proof (loop_never_panics fuel (big.Mul x x)
                  (mkState q q (big.NewInt 3) (big.NewInt (-1))) Hsq
                  ltac:(cbn; unfold big.NewInt; lia)) as Hl.
    destruct (loop big.Div fuel (big.Mul x x) _); cbn [bind] in H;
      congruence.
  - intros ->. reflexivity.
Qed.

(** X4. With a negative scale and a positive [x] the loop of [arccot] never
    ends: the Euclidean quotients stay negative, so no term is zero. *)
Theorem arccot_negative_unity_never_returns (x unity : Z) :
  0 < x -> unity < 0 ->
  forall fuel, arccot fuel x unity = OutOfFuel.
Proof.
  intros Hx Hu fuel. unfold arccot, arccot_with, arccot_init.
  rewrite (Div_pos_divisor unity x) by assumption. cbn [bind].
  rewrite loop_negative_diverges; [reflexivity | unfold big.Mul; nia | |].
  - cbn [xpower]. apply Z.div_lt_upper_bound; lia.
  - cbn [n]. unfold big.NewInt. lia.
Qed.

Lemma arccot_negative_unity_never_returns_witness :
  0 < 239 /\ -1000000 < 0 /\
  forall fuel, arccot fuel 239 (-1000000) = OutOfFuel.
Proof.
  split; [lia |]. split; [lia |].
  apply (arccot_negative_unity_never_returns 239 (-1000000)); lia.
Defined.

(** X2. The value of [arccot] lies between its first term and its first term
    less its second, and is not negative: the terms alternate in sign and
    never grow. *)
Theorem arccot_between_first_terms (x unity : Z) :
  2 <= x -> 0 <= unity ->
  exists v,
    returns (fun fuel => arccot fuel x unity) v /\
    unity / x - unity / x ^ 3 / 3 <= v <= unity / x /\
    0 <= v.
Proof.
  intros Hx Hu. destruct (arccot_terminates_nonneg x unity Hx Hu) as [v Hv].
  exists v. split; [now apply (arccot_returns_at (rounds unity)) |].
  pose proof (arccot_bounds _ x unity v ltac:(lia) Hu Hv) as Hb.
  rewrite (Z.div_div unity x (x * x)) in Hb by nia.
  replace (x * (x * x)) with (x ^ 3) in Hb by ring.
  split; [exact Hb |].
  assert (0 < x ^ 3) as H3 by (apply Z.pow_pos_nonneg; lia).
  assert (unity / x ^ 3 <= unity / x) as Hle.
  { apply Z.div_le_compat_l; [lia |]. split; [lia |].
    replace x with (x ^ 1) at 1 by apply Z.pow_1_r.
    apply Z.pow_le_mono_r; lia. }
  assert (0 <= unity / x ^ 3) by (apply Z.div_pos; lia).
  assert (unity / x ^ 3 / 3 <= unity / x ^ 3)
    by (apply Z.div_le_upper_bound; lia).
  lia.
Qed.

Lemma arccot_between_first_terms_witness :
  2 <= 5 /\ 0 <= 1000000 /\
  exists v,
    returns (fun fuel => arccot fuel 5 1000000) v /\
    1000000 / 5 - 1000000 / 5 ^ 3 / 3 <= v <= 1000000 / 5 /\
    0 <= v.
Proof.
  split; [lia |]. split; [lia |].
  apply (arccot_between_first_terms 5 1000000); lia.
Defined.

(** X1. What [arccot] computes: the alternating sum of the terms
    [unity / x^(2j+1) / (2j+1)] for [j < k], where [k >= 1] is the first
    index from 1 on whose term is zero.  The loop runs exactly [k]
    rounds. *)
Theorem arccot_series_sum (x unity : Z) :
  2 <= x -> 0 <= unity ->
  exists k : nat,
    (1 <= k)%nat /\
    series_term x unity k = 0 /\
    (forall i, (1 <= i < k)%nat -> series_term x unity i <> 0) /\
    forall fuel,
      arccot fuel x unity =
      if (k <=? fuel)%nat then Ret (series_sum x unity k) else OutOfFuel.
Proof.
  intros Hx Hu. destruct (arccot_terminates_nonneg x unity Hx Hu) as [v Hv].
  rewrite arccot_unfold in Hv by lia.
  destruct (loop big.Div (rounds unity) (x * x) (init_state x unity))
    as [r | |] eqn:E; cbn [bind] in Hv; try discriminate.
  destruct (loop_series x unity (rounds unity) ltac:(lia) Hu 0%nat
              (init_state x unity) r) as (m & Hr & Hz & Hnz & Hrun & Hout).
  - apply init_state_good; lia.
  - cbn [init_state xpower]. change (2 * Z.of_nat 0 + 1) with 1.
    now rewrite Z.pow_1_r.
  - reflexivity.
  - reflexivity.
  - cbn [init_state sum series_sum]. unfold series_term.
    change (2 * Z.of_nat 0 + 1) with 1. change ((-1) ^ Z.of_nat 0) with 1.
    rewrite Z.pow_1_r, Z.div_1_r. lia.
  - exact E.
  - exists (S m). cbn [Nat.add] in *. split; [lia |]. split; [exact Hz |].
    split; [intros i Hi; apply Hnz; lia |].
    intros fuel. rewrite arccot_unfold by lia.
    destruct (Nat.leb_spec (S m) fuel) as [Hle | Hlt].
    + rewrite (loop_fuel_mono _ _ _ _ _ Hrun fuel Hle). cbn [bind].
      now rewrite Hr.
    + rewrite Hout by lia. reflexivity.
Qed.

Lemma arccot_series_sum_witness :
  2 <= 5 /\ 0 <= 1000000 /\
  exists k : nat,
    (1 <= k)%nat /\
    series_term 5 1000000 k = 0 /\
    (forall i, (1 <= i < k)%nat -> series_term 5 1000000 i <> 0) /\
    forall fuel,
      arccot fuel 5 1000000 =
      if (k <=? fuel)%nat then Ret (series_sum 5 1000000 k) else OutOfFuel.
Proof.
  split; [lia |]. split; [lia |].
  apply (arccot_series_sum 5 1000000); lia.
Defined.

(** X5. Multiplying the scale by [c] multiplies the value of [arccot] by [c],
    up to less than [c] per round of the run at the smaller scale: what
    the truncations of that run have lost. *)
Theorem arccot_scales (x unity c : Z) :
  2 <= x -> 1 <= unity -> 1 <= c ->
  exists a a',
    returns (fun fuel => arccot fuel x unity) a /\
    returns (fun fuel => arccot fuel x (c * unity)) a' /\
    Z.abs (a' - c * a) <= (c - 1) * (Z.log2 unity + 2).
Proof.
  intros Hx Hu Hc.
  destruct (arccot_terminates x unity Hx Hu) as [a Ha].
  destruct (arccot_terminates x (c * unity) Hx ltac:(nia)) as [a' Ha'].
  exists a, a'.
  split; [now apply (arccot_returns_at (rounds unity)) |].
  split; [now apply (arccot_returns_at (rounds (c * unity))) |].
  pose proof (arccot_scaling x unity c _ _ a a' ltac:(lia) ltac:(lia) Hc
                Ha Ha') as Hs.
  unfold rounds in Hs at 1. rewrite Nat2Z.inj_succ in Hs.
  rewrite Z2Nat.id in Hs by apply Z.log2_nonneg.
  replace (Z.log2 unity + 2) with (Z.succ (Z.log2 unity) + 1) by lia.
  exact Hs.
Qed.

Lemma arccot_scales_witness :
  2 <= 5 /\ 1 <= 1000 /\ 1 <= 100 /\
  exists a a',
    returns (fun fuel => arccot fuel 5 1000) a /\
    returns (fun fuel => arccot fuel 5 (100 * 1000)) a' /\
    Z.abs (a' - 100 * a) <= (100 - 1) * (Z.log2 1000 + 2).
Proof.
  split; [lia |]. split; [lia |]. split; [lia |].
  apply (arccot_scales 5 1000 100); lia.
Defined.

(** * The wrapper and the command line *)

(** ** Numerals printed and read back *)

Lemma digit_char_spec d :
  is_decimal_digit d ->
  is_digit (digit_char d) = true /\ digit_value (digit_char d) = d.
Proof.
  intros Hd. unfold is_decimal_digit in Hd.
  assert (d = 0 \/ d = 1 \/ d = 2 \/ d = 3 \/ d = 4 \/ d = 5 \/ d = 6 \/
          d = 7 \/ d = 8 \/ d = 9) as Hcases by lia.
  repeat (destruct Hcases as [-> | Hcases]; [split; reflexivity |]).
  subst d. split; reflexivity.
Qed.

Lemma is_digit_not_sign c :
  is_digit c = true -> (c =? "+")%char = false /\ (c =? "-")%char = false.
Proof.
  intros H. split.
  - destruct (Ascii.eqb_spec c "+") as [-> | _]; [discriminate | reflexivity].
  - destruct (Ascii.eqb_spec c "-") as [-> | _]; [discriminate | reflexivity].
Qed.

Lemma decimal_rev_digits fuel :
  forall v, 0 <= v -> Forall is_decimal_digit (decimal_rev fuel v).
Proof.
  induction fuel as [| fuel IH]; intros v Hv; cbn [decimal_rev];
    [constructor |].
  destruct (Z.ltb_spec v 10) as [Hlt | Hge].
  - constructor; [unfold is_decimal_digit; lia | constructor].
  - constructor.
    + pose proof (Z.mod_pos_bound v 10 ltac:(lia)).
      unfold is_decimal_digit. lia.
    + apply IH. apply Z.div_pos; lia.
Qed.

Lemma decimal_rev_value fuel :
  forall v, 0 <= v < 10 ^ Z.of_nat fuel ->
  fold_right (fun d a => a * 10 + d) 0 (decimal_rev fuel v) = v.
Proof.
  induction fuel as [| fuel IH]; intros v Hv; cbn [decimal_rev].
  - change (10 ^ Z.of_nat 0) with 1 in Hv. cbn. lia.
  - destruct (Z.ltb_spec v 10) as [Hlt | Hge]; [cbn; lia |].
    cbn [fold_right]. rewrite IH.
    + pose proof (Z.div_mod v 10 ltac:(lia)). lia.
    + rewrite Nat2Z.inj_succ, Z.pow_succ_r in Hv by lia.
      split; [apply Z.div_pos; lia | apply Z.div_lt_upper_bound; lia].
Qed.

Lemma decimal_fuel_enough v :
  0 <= v -> v < 10 ^ Z.of_nat (S (Z.to_nat (Z.log2 v))).
Proof.
  intros Hv. rewrite Nat2Z.inj_succ.
  rewrite Z2Nat.id by apply Z.log2_nonneg.
  destruct (Z.eq_dec v 0) as [-> | Hne]; [reflexivity |].
  pose proof (Z.log2_spec v ltac:(lia)) as [_ Hlt].
  pose proof (Z.log2_nonneg v) as Hlog.
  assert (2 ^ Z.succ (Z.log2 v) <= 10 ^ Z.succ (Z.log2 v))
    by (apply Z.pow_le_mono_l; lia).
  lia.
Qed.

Lemma decimal_digits v : 0 <= v -> Forall is_decimal_digit (decimal v).
Proof.
  intros Hv. unfold decimal. apply Forall_rev.
  now apply decimal_rev_digits.
Qed.

Lemma decimal_nonempty v : decimal v <> [].
Proof.
  unfold decimal. cbn [decimal_rev].
  destruct (v <? 10); cbn [rev]; intros H;
    apply app_eq_nil in H; destruct H; discriminate.
Qed.

Lemma parse_digits_string_of_digits l :
  Forall is_decimal_digit l ->
  forall acc,
    parse_digits acc (string_of_digits l) =
    Some (fold_left (fun a d => a * 10 + d) l acc).
Proof.
  induction 1 as [| d l Hd Hl IH]; intros acc; [reflexivity |].
  cbn [string_of_digits fold_right parse_digits fold_left].
  destruct (digit_char_spec d Hd) as [-> ->]. apply IH.
Qed.

(** Reading back the digits printed for [v] gives [v]. *)
Lemma ParseUint_decimal v :
  0 <= v -> ParseUint (string_of_digits (decimal v)) = Some v.
Proof.
  intros Hv.
  pose proof (parse_digits_string_of_digits _ (decimal_digits v Hv) 0) as Hp.
  unfold ParseUint.
  destruct (string_of_digits (decimal v)) as [| a s] eqn:Es.
  - pose proof (decimal_nonempty v) as Hne.
    destruct (decimal v); [contradiction | discriminate].
  - rewrite Hp. f_equal. unfold decimal.
    pose proof (fold_left_rev_right (fun d a => a * 10 + d)
                  (rev (decimal_rev (S (Z.to_nat (Z.log2 v))) v)) 0) as F.
    cbv beta in F. rewrite <- F, rev_involutive.
    apply decimal_rev_value.
    split; [assumption | now apply decimal_fuel_enough].
Qed.

Lemma string_of_digits_all_digits l :
  Forall is_decimal_digit l ->
  string_forall is_digit (string_of_digits l) = true.
Proof.
  induction 1 as [| d l Hd Hl IH]; [reflexivity |].
  cbn [string_of_digits fold_right string_forall].
  destruct (digit_char_spec d Hd) as [-> _]. exact IH.
Qed.

(** A numeral starts with a digit, or with a minus sign and a digit. *)
Lemma Sprint_shape v :
  (0 <= v /\ exists c s, Sprint v = String c s /\ is_digit c = true) \/
  (v < 0 /\ exists c s,
     Sprint v = String "-" (String c s) /\ is_digit c = true /\
     String c s = string_of_digits (decimal (- v))).
Proof.
  assert (forall w, 0 <= w -> exists c s,
            string_of_digits (decimal w) = String c s /\ is_digit c = true)
    as Hfirst.
  { intros w Hw. pose proof (decimal_nonempty w) as Hne.
    pose proof (decimal_digits w Hw) as Hd.
    destruct (decimal w) as [| d l]; [contradiction |].
    inversion Hd as [| ? ? Hd0 _]. subst.
    exists (digit_char d), (string_of_digits l).
    split; [reflexivity | apply (digit_char_spec d Hd0)]. }
  unfold Sprint. destruct (Z.ltb_spec v 0) as [Hneg | Hpos].
  - right. split; [assumption |].
    destruct (Hfirst (- v) ltac:(lia)) as (c & s & E & Hc).
    exists c, s. rewrite E. repeat split; assumption.
  - left. split; [assumption |]. now apply Hfirst.
Qed.

Lemma Sprint_not_help v :
  (Sprint v =? "-h")%string = false /\ (Sprint v =? "--help")%string = false.
Proof.
  destruct (Sprint_shape v) as [(_ & c & s & -> & Hc) |
                                (_ & c & s & -> & Hc & _)].
  - destruct (is_digit_not_sign c Hc) as [_ Hm]. cbn. now rewrite Hm.
  - cbn. destruct (Ascii.eqb_spec c "h") as [-> | _]; [discriminate |].
    destruct (Ascii.eqb_spec c "-") as [-> | _]; [discriminate |].
    split; reflexivity.
Qed.

Lemma Sprint_nonneg_all_digits v :
  0 <= v -> string_forall is_digit (Sprint v) = true.
Proof.
  intros Hv. unfold Sprint. destruct (Z.ltb_spec v 0); [lia |].
  apply string_of_digits_all_digits. now apply decimal_digits.
Qed.

Section CommandLineFacts.

Variable intSize : Z.
Variable Base : string -> string.
Hypothesis intSize_pos : 0 < intSize.

(** [Atoi] reads back every [int] as printed, and refuses the numeral of
    any integer out of the range of [int]. *)
Lemma Atoi_Sprint n :
  Atoi intSize (Sprint n) =
  if ((- 2 ^ (intSize - 1) <=? n) && (n <? 2 ^ (intSize - 1)))%bool
  then Some n else None.
Proof.
  assert (0 < 2 ^ (intSize - 1)) as Hcut
    by (apply Z.pow_pos_nonneg; lia).
  unfold Atoi, ParseInt.
  destruct (Sprint_shape n) as [(Hn & c & s & E & Hc) |
                                (Hn & c & s & E & Hc & Hs)]; rewrite E.
  - destruct (is_digit_not_sign c Hc) as [-> ->]. cbn [orb negb andb].
    rewrite <- E. unfold Sprint at 1.
    destruct (Z.ltb_spec n 0); [lia |].
    rewrite (ParseUint_decimal n Hn).
    destruct (Z.leb_spec (- 2 ^ (intSize - 1)) n); [| lia].
    destruct (Z.leb_spec (2 ^ (intSize - 1)) n);
      destruct (Z.ltb_spec n (2 ^ (intSize - 1))); try lia; reflexivity.
  - change ("-" =? "+")%char with false. change ("-" =? "-")%char with true.
    cbn [orb negb andb]. rewrite Hs, (ParseUint_decimal (- n)) by lia.
    destruct (Z.ltb_spec n (2 ^ (intSize - 1))); [| lia].
    destruct (Z.ltb_spec (2 ^ (intSize - 1)) (- n));
      destruct (Z.leb_spec (- 2 ^ (intSize - 1)) n); try lia;
      cbn [andb]; [reflexivity | f_equal; lia].
Qed.

(** A character that is no digit, anywhere but in the first place, makes
    [Atoi] fail. *)
Lemma parse_digits_nondigit pre c post :
  is_digit c = false ->
  forall acc, parse_digits acc (pre ++ String c post) = None.
Proof.
  intros Hc. induction pre as [| a pre IH]; intros acc; cbn.
  - now rewrite Hc.
  - destruct (is_digit a); [apply IH | reflexivity].
Qed.

Lemma Atoi_nondigit a pre c post :
  is_digit c = false ->
  Atoi intSize (String a (pre ++ String c post)) = None.
Proof.
  intros Hc. unfold Atoi, ParseInt.
  assert (ParseUint (pre ++ String c post) = None) as Htail.
  { unfold ParseUint. destruct pre as [| b pre]; cbn [append].
    - cbn. now rewrite Hc.
    - change (String b (pre ++ String c post))
        with (String b pre ++ String c post)%string.
      now apply parse_digits_nondigit. }
  assert (ParseUint (String a (pre ++ String c post)) = None) as Hall.
  { unfold ParseUint.
    change (String a (pre ++ String c post))
      with (String a pre ++ String c post)%string.
    now apply parse_digits_nondigit. }
  destruct ((a =? "+")%char || (a =? "-")%char)%bool;
    [now rewrite Htail | now rewrite Hall].
Qed.

End CommandLineFacts.

(** ** What [main] prints *)

Lemma π_negative_zero places :
  places < 0 -> returns (fun fuel => π fuel places) 0.
Proof.
  intros Hneg.
  assert (unity_of places <= 10 ^ 9) as Hsmall.
  { unfold unity_of, big.Exp. destruct (Z.leb_spec (places + 10) 0).
    - now vm_compute.
    - apply Z.pow_le_mono_r; lia. }
  destruct (π_value places) as (a & b & _ & _ & M0 & M1 & _ & Hpi).
  exists (rounds (unity_of places)). intros fuel Hle.
  rewrite (Hpi fuel Hle). f_equal.
  change (10 ^ 9) with 1000000000 in Hsmall.
  change (10 ^ 10) with 10000000000.
  apply Z.div_small. lia.
Qed.

Lemma main_no_panic fuel places : main fuel places <> Panic.
Proof.
  unfold main. pose proof (π_no_panic fuel places) as Hp.
  destruct (π fuel places) as [v | |]; cbn [bind]; try congruence.
  destruct (Sprint_shape v) as [(_ & c & s & -> & _) |
                                (_ & c & s & -> & _)]; discriminate.
Qed.

Lemma main_prints places :
  exists rest,
    returns (fun fuel => main fuel places) ("3." ++ rest ++ newline)%string /\
    String.length rest = Z.to_nat places /\
    string_forall is_digit rest = true.
Proof.
  destruct (Z.lt_ge_cases places 0) as [Hneg | Hpos].
  - exists EmptyString. split; [| split; [| reflexivity]].
    + destruct (π_negative_zero places Hneg) as [k Hk].
      exists k. intros fuel Hle. unfold main. now rewrite (Hk fuel Hle).
    + cbn. lia.
  - destruct (π_leading_range places Hpos) as (v & [k Hv] & Hrange).
    destruct (Sprint_leading_3 places v Hpos Hrange) as (rest & Hs & Hlen).
    exists rest. split; [| split; [exact Hlen |]].
    + exists k. intros fuel Hle. unfold main. rewrite (Hv fuel Hle).
      cbn [bind]. now rewrite Hs.
    + pose proof (Z.pow_pos_nonneg 10 places ltac:(lia) Hpos).
      pose proof (Sprint_nonneg_all_digits v ltac:(lia)) as Hd.
      rewrite Hs in Hd. cbn [string_forall] in Hd.
      now apply andb_prop in Hd.
Qed.

Lemma main_output_form fuel places out :
  main fuel places = Ret out ->
  exists rest, out = ("3." ++ rest ++ newline)%string.
Proof.
  intros H. unfold main in H.
  destruct (π fuel places) as [v | |]; cbn [bind] in H; try discriminate.
  destruct (Sprint v) as [| c rest]; [discriminate |].
  injection H as <-. now exists rest.
Qed.

(** X8. For every [places], negative or not, [main] ends and prints ["3."],
    then exactly [max places 0] decimal digits, then a newline; in no run
    does it panic: the slice [scaledPi[1:]] is always within bounds. *)
Theorem main_output_shape (places : Z) :
  (exists rest,
     returns (fun fuel => main fuel places)
             ("3." ++ rest ++ newline)%string /\
     String.length rest = Z.to_nat (Z.max places 0) /\
     string_forall is_digit rest = true) /\
  (forall fuel, main fuel places <> Panic) /\
  (forall fuel out,
     main fuel places = Ret out ->
     exists rest, out = ("3." ++ rest ++ newline)%string).
Proof.
  split; [| split].
  - destruct (main_prints places) as (rest & Hr & Hlen & Hd).
    exists rest. split; [exact Hr |]. split; [| exact Hd].
    rewrite Hlen. lia.
  - intros fuel. apply main_no_panic.
  - intros fuel out. apply main_output_form.
Qed.

Section CommandLineProperties.

Variable intSize : Z.
Variable Base : string -> string.

(** X9. An argument that is the numeral of an integer [n]: [n] is returned
    when it is in the range of [int], and nothing is written; out of that
    range the numeral is ignored, with a warning, and the default is
    returned (the clamped value that [Atoi] gives with its range error is
    not used).  Further arguments are ignored. *)
Theorem handleCommandLine_numeral
        (arg0 : string) (more : list string) (n defaultValue : Z) :
  0 < intSize ->
  handleCommandLine intSize Base (arg0 :: Sprint n :: more) defaultValue =
  if ((- 2 ^ (intSize - 1) <=? n) && (n <? 2 ^ (intSize - 1)))%bool
  then Returned n EmptyString
  else Returned defaultValue (ignoring_text defaultValue).
Proof.
  intros Hsize. unfold handleCommandLine.
  destruct (Sprint_not_help n) as [-> ->]. cbn [orb].
  rewrite (Atoi_Sprint intSize Hsize n).
  destruct ((- 2 ^ (intSize - 1) <=? n) && (n <? 2 ^ (intSize - 1)))%bool;
    reflexivity.
Qed.

(** X10. An argument with a character that is no digit, anywhere but in its
    first place, is ignored with a warning, unless it is the call for
    help: the default is returned. *)
Theorem handleCommandLine_not_a_number
        (arg0 : string) (more : list string) (defaultValue : Z)
        (a c : ascii) (pre post : string) :
  is_digit c = false ->
  String a (pre ++ String c post) <> "-h"%string ->
  String a (pre ++ String c post) <> "--help"%string ->
  handleCommandLine intSize Base
    (arg0 :: String a (pre ++ String c post) :: more) defaultValue =
  Returned defaultValue (ignoring_text defaultValue).
Proof.
  intros Hc Hh Hhelp. unfold handleCommandLine.
  destruct (String.eqb_spec (String a (pre ++ String c post)) "-h");
    [contradiction |].
  destruct (String.eqb_spec (String a (pre ++ String c post)) "--help");
    [contradiction |].
  cbn [orb]. now rewrite (Atoi_nondigit intSize a pre c post Hc).
Qed.

(** X11. The exit status of a run that ends is 1 or 0.  It is 1 exactly when
    the first argument is [-h] or [--help]: then nothing is computed or
    printed on the standard output, whatever the fuel, and the usage text
    goes to the standard error.  Otherwise the standard output is ["3."],
    the digits and a newline. *)
Theorem exit_status_help (fuel : nat) (Args : list string)
        (r : process_result) :
  main_from_args intSize Base fuel Args = Ret r ->
  (status r = 1 /\ stdout r = EmptyString /\
   exists arg0 flag more,
     Args = arg0 :: flag :: more /\
     (flag = "-h"%string \/ flag = "--help"%string) /\
     stderr r = usage_text (Base arg0) /\
     forall fuel', main_from_args intSize Base fuel' Args = Ret r) \/
  (status r = 0 /\
   (forall arg0 flag more,
      Args = arg0 :: flag :: more ->
      flag <> "-h"%string /\ flag <> "--help"%string) /\
   exists rest, stdout r = ("3." ++ rest ++ newline)%string).
Proof.
  unfold main_from_args, handleCommandLine. intros H.
  assert (forall places err,
            (out <- main fuel places ;; Ret (mkProcess out err 0)) = Ret r ->
            status r = 0 /\
            exists rest, stdout r = ("3." ++ rest ++ newline)%string)
    as Hrun.
  { intros places err Hm.
    destruct (main fuel places) as [out | |] eqn:E; cbn [bind] in Hm;
      try discriminate.
    injection Hm as <-. split; [reflexivity |].
    exact (main_output_form fuel places out E). }
  destruct Args as [| arg0 [| arg1 more]].
  - right. destruct (Hrun _ _ H) as [Hs Hout].
    split; [exact Hs |]. split; [intros ? ? ? E; discriminate | exact Hout].
  - right. destruct (Hrun _ _ H) as [Hs Hout].
    split; [exact Hs |]. split; [intros ? ? ? E; discriminate | exact Hout].
  - destruct (String.eqb_spec arg1 "-h") as [Eh | Nh]; cbn [orb] in H.
    + left. injection H as <-. cbn. repeat split.
      exists arg0, arg1, more. repeat split. now left.
    + destruct (String.eqb_spec arg1 "--help") as [Eh | Nhelp].
      * left. injection H as <-. cbn. repeat split.
        exists arg0, arg1, more. repeat split. now right.
      * right.
        assert (status r = 0 /\
                exists rest, stdout r = ("3." ++ rest ++ newline)%string)
          as [Hs Hout]
          by (destruct (Atoi intSize arg1); exact (Hrun _ _ H)).
        split; [exact Hs |]. split; [| exact Hout].
        intros ? ? ? E. injection E as <- <- <-. now split.
Qed.

(** X12. With no argument at all the program prints the default, 1000
    decimals, and writes nothing to the standard error. *)
Theorem main_from_args_default (Args : list string) :
  (List.length Args <= 1)%nat ->
  exists rest,
    returns (fun fuel => main_from_args intSize Base fuel Args)
            (mkProcess ("3." ++ rest ++ newline)%string EmptyString 0) /\
    String.length rest = 1000%nat /\
    string_forall is_digit rest = true.
Proof.
  intros Hlen.
  assert (handleCommandLine intSize Base Args 1000
          = Returned 1000 EmptyString) as Hcmd.
  { destruct Args as [| arg0 [| arg1 more]]; [reflexivity .. |].
    cbn [List.length] in Hlen. lia. }
  destruct (main_prints 1000) as (rest & [k Hk] & Hl & Hd).
  exists rest. split; [| split; assumption].
  exists k. intros fuel Hle. unfold main_from_args.
  rewrite Hcmd, (Hk fuel Hle). reflexivity.
Qed.

(** X13. From the command line to the output: when the argument is the
    numeral of an [int] [n], the program prints ["3."], exactly
    [max n 0] decimal digits and a newline, writes nothing to the
    standard error and ends with status 0. *)
Theorem main_from_args_digits
        (arg0 : string) (more : list string) (n : Z) :
  0 < intSize ->
  - 2 ^ (intSize - 1) <= n < 2 ^ (intSize - 1) ->
  exists rest,
    returns (fun fuel =>
               main_from_args intSize Base fuel (arg0 :: Sprint n :: more))
            (mkProcess ("3." ++ rest ++ newline)%string EmptyString 0) /\
    String.length rest = Z.to_nat (Z.max n 0) /\
    string_forall is_digit rest = true.
Proof.
  intros Hsize Hn.
  assert (handleCommandLine intSize Base (arg0 :: Sprint n :: more) 1000
          = Returned n EmptyString) as Hcmd.
  { unfold handleCommandLine.
    destruct (Sprint_not_help n) as [-> ->]. cbn [orb].
    rewrite (Atoi_Sprint intSize Hsize n).
    destruct (Z.leb_spec (- 2 ^ (intSize - 1)) n); [| lia].
    destruct (Z.ltb_spec n (2 ^ (intSize - 1))); [reflexivity | lia]. }
  destruct (main_prints n) as (rest & [k Hk] & Hl & Hd).
  exists rest. split; [| split; [rewrite Hl; lia | exact Hd]].
  exists k. intros fuel Hle. unfold main_from_args.
  rewrite Hcmd, (Hk fuel Hle). reflexivity.
Qed.

End CommandLineProperties.

Lemma handleCommandLine_numeral_witness :
  0 < 64 /\
  handleCommandLine 64 (fun s => s) ["pi"; Sprint 250]%string 1000 =
  if ((- 2 ^ (64 - 1) <=? 250) && (250 <? 2 ^ (64 - 1)))%bool
  then Returned 250 EmptyString
  else Returned 1000 (ignoring_text 1000).
Proof.
  split; [lia |].
  apply (handleCommandLine_numeral 64 (fun s => s) "pi" [] 250 1000). lia.
Defined.

Lemma handleCommandLine_not_a_number_witness :
  is_digit "." = false /\
  String "1" ("" ++ String "." "5") <> "-h"%string /\
  String "1" ("" ++ String "." "5") <> "--help"%string /\
  handleCommandLine 64 (fun s => s)
    ["pi"%string; String "1" ("" ++ String "." "5")] 1000 =
  Returned 1000 (ignoring_text 1000).
Proof.
  assert (is_digit "." = false) as Hc by reflexivity.
  assert (String "1" ("" ++ String "." "5") <> "-h"%string) as Hh
    by discriminate.
  assert (String "1" ("" ++ String "." "5") <> "--help"%string) as Hhelp
    by discriminate.
  split; [exact Hc |]. split; [exact Hh |]. split; [exact Hhelp |].
  exact (handleCommandLine_not_a_number 64 (fun s => s) "pi" [] 1000
           "1" "." "" "5" Hc Hh Hhelp).
Defined.

Lemma exit_status_help_witness :
  main_from_args 64 (fun s => s) 3 ["pi"; "--help"; "12"]%string
  = Ret (mkProcess EmptyString (usage_text "pi") 1) /\
  ((status (mkProcess EmptyString (usage_text "pi") 1) = 1 /\
    stdout (mkProcess EmptyString (usage_text "pi") 1) = EmptyString /\
    exists arg0 flag more,
      ["pi"; "--help"; "12"]%string = arg0 :: flag :: more /\
      (flag = "-h"%string \/ flag = "--help"%string) /\
      stderr (mkProcess EmptyString (usage_text "pi") 1)
      = usage_text ((fun s => s) arg0) /\
      forall fuel',
        main_from_args 64 (fun s => s) fuel' ["pi"; "--help"; "12"]%string
        = Ret (mkProcess EmptyString (usage_text "pi") 1)) \/
   (status (mkProcess EmptyString (usage_text "pi") 1) = 0 /\
    (forall arg0 flag more,
       ["pi"; "--help"; "12"]%string = arg0 :: flag :: more ->
       flag <> "-h"%string /\ flag <> "--help"%string) /\
    exists rest,
      stdout (mkProcess EmptyString (usage_text "pi") 1)
      = ("3." ++ rest ++ newline)%string)).
Proof.
  assert (main_from_args 64 (fun s => s) 3 ["pi"; "--help"; "12"]%string
          = Ret (mkProcess EmptyString (usage_text "pi") 1)) as H
    by reflexivity.
  split; [exact H |].
  exact (exit_status_help 64 (fun s => s) 3 _ _ H).
Defined.

Lemma main_from_args_default_witness :
  (List.length ["pi"%string] <= 1)%nat /\
  exists rest,
    returns (fun fuel => main_from_args 64 (fun s => s) fuel ["pi"%string])
            (mkProcess ("3." ++ rest ++ newline)%string EmptyString 0) /\
    String.length rest = 1000%nat /\
    string_forall is_digit rest = true.
Proof.
  assert (List.length ["pi"%string] <= 1)%nat as H by (cbn; lia).
  split; [exact H |].
  exact (main_from_args_default 64 (fun s => s) ["pi"%string] H).
Defined.

Lemma main_from_args_digits_witness :
  0 < 64 /\ - 2 ^ (64 - 1) <= 12 < 2 ^ (64 - 1) /\
  exists rest,
    returns (fun fuel =>
               main_from_args 64 (fun s => s) fuel
                 ["pi"%string; Sprint 12])
            (mkProcess ("3." ++ rest ++ newline)%string EmptyString 0) /\
    String.length rest = Z.to_nat (Z.max 12 0) /\
    string_forall is_digit rest = true.
Proof.
  assert (0 < 64) as Hs by lia.
  assert (- 2 ^ (64 - 1) <= 12 < 2 ^ (64 - 1)) as Hn
    by (split; now vm_compute).
  split; [exact Hs |]. split; [exact Hn |].
  exact (main_from_args_digits 64 (fun s => s) "pi" [] 12 Hs Hn).
Defined.
